(** * sockets_lab: the command protocol of [lab], embedded in Rocq

    The development follows the Python package [lab]:

    - [basecommand.py], [whocommand.py], [boolcommand.py],
      [isprimecommand.py], [finishsessioncommand.py], [statscommand.py]:
      the five command classes with their [from_bytes] / [to_bytes] codecs
      and their server-side execution [__call__];
    - [commandserver.py]: [SessionData] and the session driver
      [CommandServer.handle_connection].

    Python values are modelled as follows.  An [int] is a [Z] (unbounded),
    [bytes] is a [list byte], a [str] is the list of its code points, a
    [float] is a binary64 [spec_float] of the Standard Library, and a raised
    exception is the [Error] case of [result]. *)

From Stdlib Require Import Strings.Ascii Strings.String.
From Stdlib Require Import ZArith Zdivisibility List Lia Bool.
From Stdlib Require Import Strings.Byte.
From Stdlib Require Import SpecFloat.
From Stdlib Require DecimalString.
Import ListNotations.
Open Scope Z_scope.

(** ** Exceptions and results *)

(** The exception classes the modelled code can raise. *)
Inductive exn : Type :=
  | OverflowError
  | ValueError
  | LookupError
  | UnicodeDecodeError
  | struct_error
  | UnicodeEncodeError
  | AttributeError
  | UnrecognizedCommandError
  | ConnectionBrokenError.

Inductive result (A : Type) : Type :=
  | Ok (a : A)
  | Error (e : exn).

Arguments Ok {A} a.
Arguments Error {A} e.

Definition bind {A B : Type} (r : result A) (k : A -> result B) : result B :=
  match r with
  | Ok a => k a
  | Error e => Error e
  end.

Notation "x <- r ;; k" := (bind r (fun x => k))
  (at level 61, r at next level, right associativity).

Definition is_ok {A : Type} (r : result A) : bool :=
  match r with
  | Ok _ => true
  | Error _ => false
  end.

(** ** Bytes and the built-in integer codecs *)

Definition bytes : Type := list byte.

Definition Z_of_byte (b : byte) : Z := Z.of_N (Byte.to_N b).

(** The byte of value [z mod 256]. *)
Definition byte_of_Z (z : Z) : byte :=
  match Byte.of_N (Z.to_N (z mod 256)) with
  | Some b => b
  | None => x00
  end.

(** Value of a little-endian byte string read as an unsigned integer. *)
Fixpoint le_unsigned (bs : bytes) : Z :=
  match bs with
  | [] => 0
  | b :: rest => Z_of_byte b + 256 * le_unsigned rest
  end.

(** The [len] low bytes of [z], least significant first. *)
Fixpoint le_bytes (len : nat) (z : Z) : bytes :=
  match len with
  | O => []
  | S len' => byte_of_Z z :: le_bytes len' (z / 256)
  end.

Definition bit_length (bs : bytes) : Z := 8 * Z.of_nat (length bs).

(** [int.from_bytes(bs, byteorder='little', signed=signed)].  With
    [signed] the top bit of the last byte is the sign; the empty string
    decodes to 0 either way. *)
Definition int_from_bytes (bs : bytes) (signed : bool) : Z :=
  let u := le_unsigned bs in
  if signed && Z.testbit u (bit_length bs - 1)
  then u - 2 ^ bit_length bs
  else u.

(** [n.to_bytes(len, 'little', signed=signed)]: [OverflowError] when [n]
    does not fit. *)
Definition int_to_bytes (n : Z) (len : nat) (signed : bool) : result bytes :=
  let w := 2 ^ (8 * Z.of_nat len) in
  let fits := if signed then (- w <=? 2 * n) && (2 * n <? w)
              else (0 <=? n) && (n <? w) in
  if fits then Ok (le_bytes len (n mod w)) else Error OverflowError.

(** [struct.pack('<iiii', a, b, c, d)]: four 32-bit two's complement
    little-endian fields; [struct.error] when an argument is out of range. *)
Definition int32_ok (n : Z) : bool := (- 2 ^ 31 <=? n) && (n <=? 2 ^ 31 - 1).

Definition struct_pack_iiii (a b c d : Z) : result bytes :=
  if int32_ok a && int32_ok b && int32_ok c && int32_ok d
  then Ok (le_bytes 4 (a mod 2 ^ 32) ++ le_bytes 4 (b mod 2 ^ 32)
           ++ le_bytes 4 (c mod 2 ^ 32) ++ le_bytes 4 (d mod 2 ^ 32))
  else Error struct_error.

(** [struct.unpack('<iiii', data)]: [struct.error] unless [data] has exactly
    16 bytes. *)
Definition struct_unpack_iiii (data : bytes) : result (Z * Z * Z * Z) :=
  match data with
  | [a0; a1; a2; a3; b0; b1; b2; b3; c0; c1; c2; c3; d0; d1; d2; d3] =>
      Ok (int_from_bytes [a0; a1; a2; a3] true,
          int_from_bytes [b0; b1; b2; b3] true,
          int_from_bytes [c0; c1; c2; c3] true,
          int_from_bytes [d0; d1; d2; d3] true)
  | _ => Error struct_error
  end.

(** ** Strings and the UTF-8 codec *)

(** A [str] is the sequence of its code points.  A Python string only holds
    code points in [range(0x110000)]; the encoder below rejects anything
    else, as it rejects surrogates. *)
Definition str : Type := list Z.

Definition str_of_string (s : String.string) : str :=
  map (fun a => Z.of_N (Ascii.N_of_ascii a)) (String.list_ascii_of_string s).

Definition is_surrogate (c : Z) : bool := (0xD800 <=? c) && (c <=? 0xDFFF).

(** UTF-8 encoding of one code point; [None] when it cannot be encoded. *)
Definition utf8_encode_char (c : Z) : option bytes :=
  if c <? 0 then None
  else if c <? 0x80 then Some [byte_of_Z c]
  else if c <? 0x800 then
    Some [byte_of_Z (0xC0 + c / 64); byte_of_Z (0x80 + c mod 64)]
  else if c <? 0x10000 then
    if is_surrogate c then None
    else Some [byte_of_Z (0xE0 + c / 4096);
               byte_of_Z (0x80 + (c / 64) mod 64);
               byte_of_Z (0x80 + c mod 64)]
  else if c <? 0x110000 then
    Some [byte_of_Z (0xF0 + c / 262144);
          byte_of_Z (0x80 + (c / 4096) mod 64);
          byte_of_Z (0x80 + (c / 64) mod 64);
          byte_of_Z (0x80 + c mod 64)]
  else None.

Fixpoint utf8_encode (s : str) : option bytes :=
  match s with
  | [] => Some []
  | c :: s' =>
      match utf8_encode_char c, utf8_encode s' with
      | Some e, Some r => Some (e ++ r)
      | _, _ => None
      end
  end.

(** [s.encode(errors=...)]: UTF-8.  The error handler is only looked up
    when a code point cannot be encoded; [unencodable] is the exception
    that results: [UnicodeEncodeError] under the default ['strict'],
    [LookupError] for a name that is not a registered handler. *)
Definition str_encode (s : str) (unencodable : exn) : result bytes :=
  match utf8_encode s with
  | Some e => Ok e
  | None => Error unencodable
  end.

Definition in_range (lo x hi : Z) : bool := (lo <=? x) && (x <=? hi).

(** [bs.decode()]: strict UTF-8, [UnicodeDecodeError] on any ill-formed
    sequence (overlong forms, surrogates, values above U+10FFFF, truncated
    or stray bytes). *)
Fixpoint bytes_decode (bs : bytes) : result str :=
  match bs with
  | [] => Ok []
  | b0 :: r0 =>
      let x0 := Z_of_byte b0 in
      if x0 <? 0x80 then
        s <- bytes_decode r0 ;; Ok (x0 :: s)
      else if x0 <? 0xC2 then Error UnicodeDecodeError
      else if x0 <? 0xE0 then
        match r0 with
        | b1 :: r1 =>
            let x1 := Z_of_byte b1 in
            if in_range 0x80 x1 0xBF then
              s <- bytes_decode r1 ;;
              Ok ((x0 - 0xC0) * 64 + (x1 - 0x80) :: s)
            else Error UnicodeDecodeError
        | _ => Error UnicodeDecodeError
        end
      else if x0 <? 0xF0 then
        match r0 with
        | b1 :: b2 :: r2 =>
            let x1 := Z_of_byte b1 in
            let x2 := Z_of_byte b2 in
            let lo := if x0 =? 0xE0 then 0xA0 else 0x80 in
            let hi := if x0 =? 0xED then 0x9F else 0xBF in
            if in_range lo x1 hi && in_range 0x80 x2 0xBF then
              s <- bytes_decode r2 ;;
              Ok ((x0 - 0xE0) * 4096 + (x1 - 0x80) * 64 + (x2 - 0x80) :: s)
            else Error UnicodeDecodeError
        | _ => Error UnicodeDecodeError
        end
      else if x0 <? 0xF5 then
        match r0 with
        | b1 :: b2 :: b3 :: r3 =>
            let x1 := Z_of_byte b1 in
            let x2 := Z_of_byte b2 in
            let x3 := Z_of_byte b3 in
            let lo := if x0 =? 0xF0 then 0x90 else 0x80 in
            let hi := if x0 =? 0xF4 then 0x8F else 0xBF in
            if in_range lo x1 hi && in_range 0x80 x2 0xBF
               && in_range 0x80 x3 0xBF then
              s <- bytes_decode r3 ;;
              Ok ((x0 - 0xF0) * 262144 + (x1 - 0x80) * 4096
                  + (x2 - 0x80) * 64 + (x3 - 0x80) :: s)
            else Error UnicodeDecodeError
        | _ => Error UnicodeDecodeError
        end
      else Error UnicodeDecodeError
  end.

(** [bs.strip(b'\0')]: NUL bytes are removed at both ends. *)
Definition is_nul (b : byte) : bool := Z_of_byte b =? 0.

Definition non_nul (b : byte) : Prop := is_nul b = false.

Fixpoint lstrip_nul (bs : bytes) : bytes :=
  match bs with
  | [] => []
  | b :: rest => if is_nul b then lstrip_nul rest else bs
  end.

Definition rstrip_nul (bs : bytes) : bytes := rev (lstrip_nul (rev bs)).

Definition strip_nul (bs : bytes) : bytes := lstrip_nul (rstrip_nul bs).

(** [bs.ljust(width, fill)] *)
Definition ljust (bs : bytes) (width : nat) (fill : byte) : bytes :=
  bs ++ repeat fill (width - length bs).

(** Truth value of an [Optional[str]]: [None] and [''] are false. *)
Definition str_truthy (s : option str) : bool :=
  match s with
  | Some (_ :: _) => true
  | _ => false
  end.

(** [s or None] *)
Definition str_or_None (s : str) : option str :=
  match s with
  | [] => None
  | _ :: _ => Some s
  end.

(** ** Floats: [int(math.sqrt(n))] *)

Definition prec : Z := 53.
Definition emax : Z := 1024.

(** Conversion of an [int] argument to a C double: round to nearest even,
    [OverflowError] when the integer is too large. *)
Definition float_of_int (n : Z) : result spec_float :=
  match binary_normalize prec emax n 0 false with
  | S754_infinity _ => Error OverflowError
  | x => Ok x
  end.

(** [math.sqrt]: the IEEE 754 square root, [ValueError] (math domain error)
    on negative arguments. *)
Definition math_sqrt (n : Z) : result spec_float :=
  x <- float_of_int n ;;
  match x with
  | S754_finite true _ _ => Error ValueError
  | S754_infinity true => Error ValueError
  | _ => Ok (SFsqrt prec emax x)
  end.

(** [int(x)] for a float [x]: truncation towards zero. *)
Definition int_of_float (x : spec_float) : result Z :=
  match x with
  | S754_zero _ => Ok 0
  | S754_finite s m e => Ok (cond_Zopp s (Z.shiftl (Zpos m) e))
  | S754_infinity _ => Error OverflowError
  | S754_nan => Error ValueError
  end.

(** [range(a, b)] *)
Definition range (a b : Z) : list Z :=
  map (fun i => a + Z.of_nat i) (seq 0 (Z.to_nat (b - a))).

(** ** Commands and session data *)

(** An instance of one of the five command classes, with its attributes. *)
Inductive BaseCommand : Type :=
  | MkWho (author : option str)
  | MkBool (value : bool)
  | MkIsPrime (n : Z)
  | MkFinishSession
  | MkStats (numbers_cnt primes_cnt min_value max_value : Z).

(** [commandserver.SessionData] *)
Record SessionData : Type := mkSessionData {
  author : str;
  session_running : bool;
  numbers_cnt : Z;
  primes_cnt : Z;
  min_value : Z;
  max_value : Z
}.

(** What a call [command(session_data)] leaves behind: the session data
    after the call, and the returned response ([None] is a value) or the
    raised exception. *)
Definition outcome : Type := (SessionData * result (option BaseCommand))%type.

Module BoolCommand.

Definition name : str := str_of_string "bool"%string.
Definition data_length : nat := 1.

Definition from_bytes (data_bytes : bytes) : result BaseCommand :=
  let value := int_from_bytes data_bytes false in
  if negb ((value =? 0) || (value =? 1)) then Error ValueError
  else Ok (MkBool (negb (value =? 0))).

Definition to_bytes (value : bool) : result bytes :=
  int_to_bytes (if value then 1 else 0) data_length false.

End BoolCommand.

Module IsPrimeCommand.

Definition MAX_ALLOWED : Z := 2 ^ 31 - 1.
Definition MIN_ALLOWED : Z := - 2 ^ 31.

Definition name : str := str_of_string "isprime"%string.
Definition data_length : nat := 4.

Definition __init__ (n : Z) : result BaseCommand :=
  if negb ((MIN_ALLOWED <=? n) && (n <=? MAX_ALLOWED)) then Error OverflowError
  else Ok (MkIsPrime n).

(** The body of [for d in range(...)]: leave with [False] at the first
    divisor, fall through to [True]. *)
Fixpoint for_d_in (ds : list Z) (n : Z) : bool :=
  match ds with
  | [] => true
  | d :: ds' => if n mod d =? 0 then false else for_d_in ds' n
  end.

Definition _is_prime (n : Z) : result bool :=
  if n <? 2 then Ok false
  else
    x <- math_sqrt n ;;
    sqrt_n <- int_of_float x ;;
    Ok (for_d_in (range 2 (sqrt_n + 1)) n).

Definition __call__ (n : Z) (session_data : SessionData) : outcome :=
  let sd1 := mkSessionData (author session_data)
               (session_running session_data)
               (numbers_cnt session_data + 1)
               (primes_cnt session_data)
               (min_value session_data)
               (max_value session_data) in
  let sd2 := mkSessionData (author sd1) (session_running sd1)
               (numbers_cnt sd1) (primes_cnt sd1) (min_value sd1)
               (Z.max n (max_value sd1)) in
  let sd3 := mkSessionData (author sd2) (session_running sd2)
               (numbers_cnt sd2) (primes_cnt sd2)
               (Z.min n (min_value sd2)) (max_value sd2) in
  match _is_prime n with
  | Error e => (sd3, Error e)
  | Ok is_prime =>
      let sd4 := if is_prime
                 then mkSessionData (author sd3) (session_running sd3)
                        (numbers_cnt sd3) (primes_cnt sd3 + 1)
                        (min_value sd3) (max_value sd3)
                 else sd3 in
      (sd4, Ok (Some (MkBool is_prime)))
  end.

Definition from_bytes (data_bytes : bytes) : result BaseCommand :=
  let n := int_from_bytes data_bytes true in
  __init__ n.

Definition to_bytes (n : Z) : result bytes :=
  int_to_bytes n data_length true.

End IsPrimeCommand.

Module WhoCommand.

Definition name : str := str_of_string "who"%string.
Definition data_length : nat := 128.

Definition __call__ (self_author : option str) (session_data : SessionData)
  : outcome :=
  if negb (str_truthy self_author)
  then (session_data, Ok (Some (MkWho (Some (author session_data)))))
  else (session_data, Ok None).

Definition from_bytes (data_bytes : bytes) : result BaseCommand :=
  decoded <- bytes_decode (strip_nul data_bytes) ;;
  Ok (MkWho (str_or_None decoded)).

Definition to_bytes (self_author : option str) : result bytes :=
  match self_author with
  | Some (c :: s) =>
      encoded <- str_encode (c :: s) LookupError ;;
      let padded := ljust encoded data_length x00 in
      if (data_length <? length padded)%nat then Error ValueError
      else Ok padded
  | _ => Ok (repeat x00 data_length)
  end.

End WhoCommand.

Module StatsCommand.

Definition name : str := str_of_string "stats"%string.
Definition data_length : nat := 4 * 4.

Definition from_bytes (data_bytes : bytes) : result BaseCommand :=
  args <- struct_unpack_iiii data_bytes ;;
  let '(a, b, c, d) := args in
  Ok (MkStats a b c d).

Definition to_bytes (numbers_cnt primes_cnt min_value max_value : Z)
  : result bytes :=
  struct_pack_iiii numbers_cnt primes_cnt min_value max_value.

End StatsCommand.

Module FinishSessionCommand.

Definition name : str := str_of_string "finishsession"%string.
Definition data_length : nat := 0.

Definition __call__ (session_data : SessionData) : outcome :=
  let sd1 := mkSessionData (author session_data) false
               (numbers_cnt session_data) (primes_cnt session_data)
               (min_value session_data) (max_value session_data) in
  (sd1, Ok (Some (MkStats (numbers_cnt sd1) (primes_cnt sd1)
                          (min_value sd1) (max_value sd1)))).

Definition from_bytes (data_bytes : bytes) : result BaseCommand :=
  Ok MkFinishSession.

Definition to_bytes : result bytes := Ok [].

End FinishSessionCommand.

(** The command classes, as the decode tables hold them. *)
Inductive CommandClass : Type :=
  | WhoCommand_cls
  | BoolCommand_cls
  | IsPrimeCommand_cls
  | FinishSessionCommand_cls
  | StatsCommand_cls.

Definition class_of (c : BaseCommand) : CommandClass :=
  match c with
  | MkWho _ => WhoCommand_cls
  | MkBool _ => BoolCommand_cls
  | MkIsPrime _ => IsPrimeCommand_cls
  | MkFinishSession => FinishSessionCommand_cls
  | MkStats _ _ _ _ => StatsCommand_cls
  end.

Definition name (cls : CommandClass) : str :=
  match cls with
  | WhoCommand_cls => WhoCommand.name
  | BoolCommand_cls => BoolCommand.name
  | IsPrimeCommand_cls => IsPrimeCommand.name
  | FinishSessionCommand_cls => FinishSessionCommand.name
  | StatsCommand_cls => StatsCommand.name
  end.

Definition data_length (cls : CommandClass) : nat :=
  match cls with
  | WhoCommand_cls => WhoCommand.data_length
  | BoolCommand_cls => BoolCommand.data_length
  | IsPrimeCommand_cls => IsPrimeCommand.data_length
  | FinishSessionCommand_cls => FinishSessionCommand.data_length
  | StatsCommand_cls => StatsCommand.data_length
  end.

Definition from_bytes (cls : CommandClass) (data_bytes : bytes)
  : result BaseCommand :=
  match cls with
  | WhoCommand_cls => WhoCommand.from_bytes data_bytes
  | BoolCommand_cls => BoolCommand.from_bytes data_bytes
  | IsPrimeCommand_cls => IsPrimeCommand.from_bytes data_bytes
  | FinishSessionCommand_cls => FinishSessionCommand.from_bytes data_bytes
  | StatsCommand_cls => StatsCommand.from_bytes data_bytes
  end.

Definition to_bytes (c : BaseCommand) : result bytes :=
  match c with
  | MkWho a => WhoCommand.to_bytes a
  | MkBool v => BoolCommand.to_bytes v
  | MkIsPrime n => IsPrimeCommand.to_bytes n
  | MkFinishSession => FinishSessionCommand.to_bytes
  | MkStats a b c d => StatsCommand.to_bytes a b c d
  end.

(** [command(session_data)]; the classes without a [__call__] of their own
    inherit [BaseCommand.__call__], which returns [None]. *)
Definition __call__ (c : BaseCommand) (session_data : SessionData) : outcome :=
  match c with
  | MkWho a => WhoCommand.__call__ a session_data
  | MkIsPrime n => IsPrimeCommand.__call__ n session_data
  | MkFinishSession => FinishSessionCommand.__call__ session_data
  | MkBool _ | MkStats _ _ _ _ => (session_data, Ok None)
  end.

(** The values a command object can be built from and encoded: an
    [isprime] argument within the bounds [__init__] checks, [stats] fields
    within the ['i'] format of [struct], a [who] author whose encoding fits
    the data field; [bool] and [finishsession] have no constraint. *)
Definition in_domain (c : BaseCommand) : bool :=
  match c with
  | MkWho None => true
  | MkWho (Some a) =>
      match utf8_encode a with
      | Some e => (length e <=? WhoCommand.data_length)%nat
      | None => false
      end
  | MkBool _ => true
  | MkIsPrime n =>
      (IsPrimeCommand.MIN_ALLOWED <=? n) && (n <=? IsPrimeCommand.MAX_ALLOWED)
  | MkFinishSession => true
  | MkStats a b c d => int32_ok a && int32_ok b && int32_ok c && int32_ok d
  end.

(** A freshly constructed [SessionData()]; [AUTHOR] is [constants.AUTHOR]. *)
Definition SessionData_new (AUTHOR : str) : SessionData :=
  mkSessionData AUTHOR true 0 0
    IsPrimeCommand.MAX_ALLOWED IsPrimeCommand.MIN_ALLOWED.

(** ** The session driver, [CommandServer] *)

(** The server object and its connection.  [_buffer] is the attribute of
    that name; [pending] lists what the successive calls
    [conn.recv(RECV_BUFFER_SIZE)] will return (once it is exhausted the
    peer has closed and [recv] returns [b'']); [sent] collects the
    arguments of [conn.sendall], oldest first. *)
Record Server : Type := mkServer {
  _buffer : bytes;
  pending : list bytes;
  sent : list bytes
}.

(** A method of the server: it updates the server and returns or raises. *)
Definition method (A : Type) : Type := Server -> Server * result A.

Definition ret {A : Type} (a : A) : method A := fun w => (w, Ok a).

Definition raise {A : Type} (e : exn) : method A := fun w => (w, Error e).

Definition lift {A : Type} (r : result A) : method A := fun w => (w, r).

Definition mbind {A B : Type} (m : method A) (k : A -> method B) : method B :=
  fun w =>
    match m w with
    | (w', Ok a) => k a w'
    | (w', Error e) => (w', Error e)
    end.

Notation "x <~ m ;; k" := (mbind m (fun x => k))
  (at level 61, m at next level, right associativity).

(** Python slices [bs[:n]] and [bs[n:]]; a negative [n] counts from the
    end. *)
Definition slice_to (bs : bytes) (n : Z) : bytes :=
  if 0 <=? n then firstn (Z.to_nat n) bs
  else firstn (length bs - Z.to_nat (- n)) bs.

Definition slice_from (bs : bytes) (n : Z) : bytes :=
  if 0 <=? n then skipn (Z.to_nat n) bs
  else skipn (length bs - Z.to_nat (- n)) bs.

Definition str_eqb (a b : str) : bool :=
  if list_eq_dec Z.eq_dec a b then true else false.

Fixpoint dict_get {V : Type} (d : list (str * V)) (key : str) : option V :=
  match d with
  | [] => None
  | (k, v) :: d' => if str_eqb k key then Some v else dict_get d' key
  end.

Module CommandServer.

Definition MESSAGE_HEADER_SIZE_LENGTH : nat := 1.

Definition commands_decode_table : list (str * CommandClass) :=
  [ (WhoCommand.name, WhoCommand_cls);
    (IsPrimeCommand.name, IsPrimeCommand_cls);
    (FinishSessionCommand.name, FinishSessionCommand_cls) ].

(** The [while] loop of [_recv]: returns the buffer, what is left of
    [pending], and whether [ConnectionBrokenError] was raised. *)
Fixpoint _recv_fill (pend : list bytes) (buffer : bytes) (n : Z)
  {struct pend} : bytes * list bytes * bool :=
  if Z.of_nat (length buffer) <? n then
    match pend with
    | [] => (buffer, [], true)
    | [] :: rest => (buffer, rest, true)
    | chunk :: rest => _recv_fill rest (buffer ++ chunk) n
    end
  else (buffer, pend, false).

Definition _recv (n : Z) : method bytes :=
  fun w =>
    let '(buffer, pend, broken) := _recv_fill (pending w) (_buffer w) n in
    if broken then (mkServer buffer pend (sent w), Error ConnectionBrokenError)
    else (mkServer (slice_from buffer n) pend (sent w), Ok (slice_to buffer n)).

Definition _send (data : bytes) : method unit :=
  fun w => (mkServer (_buffer w) (pending w) (sent w ++ [data]), Ok tt).

Definition _receive_message : method (option BaseCommand) :=
  header <~ _recv (Z.of_nat MESSAGE_HEADER_SIZE_LENGTH) ;;
  let header_length := int_from_bytes header false in
  if header_length =? Z.of_nat MESSAGE_HEADER_SIZE_LENGTH then ret None
  else
    name_bytes <~ _recv (header_length - Z.of_nat MESSAGE_HEADER_SIZE_LENGTH) ;;
    match bytes_decode name_bytes with
    | Error _ => raise UnrecognizedCommandError
    | Ok command_name =>
        match dict_get commands_decode_table command_name with
        | None => raise UnrecognizedCommandError
        | Some command_type =>
            command_data <~ _recv (Z.of_nat (data_length command_type)) ;;
            command <~ lift (from_bytes command_type command_data) ;;
            ret (Some command)
        end
    end.

(** [command] is whatever the executed command returned, [None] included;
    the attribute access [command.name] on [None] raises
    [AttributeError]. *)
Definition _send_command (command : option BaseCommand) : method unit :=
  match command with
  | None => raise AttributeError
  | Some c =>
      match str_encode (name (class_of c)) UnicodeEncodeError with
      | Error _ => raise UnrecognizedCommandError
      | Ok encoded_command_name =>
          let header_length :=
            Z.of_nat (MESSAGE_HEADER_SIZE_LENGTH + length encoded_command_name) in
          size <~ lift (int_to_bytes header_length MESSAGE_HEADER_SIZE_LENGTH false) ;;
          let header := size ++ encoded_command_name in
          data <~ lift (to_bytes c) ;;
          let message := header ++ data in
          _send message
      end
  end.

(** One round of the [while] loop of [handle_connection], entered with
    [session_running] true.  [Ok sd] is the session data with which the
    loop goes on (reached at the end of the body or by [continue]); an
    [Error] is an exception that leaves [handle_connection]. *)
Definition handle_one (session_data : SessionData) : method SessionData :=
  fun w =>
    match _receive_message w with
    | (w1, Error UnrecognizedCommandError) => (w1, Ok session_data)
    | (w1, Error e) => (w1, Error e)
    | (w1, Ok None) => (w1, Ok session_data)
    | (w1, Ok (Some command)) =>
        match __call__ command session_data with
        | (sd', Error e) => (w1, Error e)
        | (sd', Ok response_command) =>
            match _send_command response_command w1 with
            | (w2, Error e) => (w2, Error e)
            | (w2, Ok _) => (w2, Ok sd')
            end
        end
    end.

(** [handle_connection], with a bound on the number of rounds: [None] when
    the bound is reached with the session still running. *)
Fixpoint handle_rounds (rounds : nat) (session_data : SessionData) (w : Server)
  : Server * option (result SessionData) :=
  if session_running session_data then
    match rounds with
    | O => (w, None)
    | S rounds' =>
        match handle_one session_data w with
        | (w', Ok sd') => handle_rounds rounds' sd' w'
        | (w', Error e) => (w', Some (Error e))
        end
    end
  else (w, Some (Ok session_data)).

Definition handle_connection (AUTHOR : str) (rounds : nat) (conn : list bytes)
  (sent_before : list bytes) : Server * option (result SessionData) :=
  let session_data := SessionData_new AUTHOR in
  handle_rounds rounds session_data (mkServer [] conn sent_before).

End CommandServer.

(** ** The connection as a byte stream *)

(** What is still to be read: the buffer, then all that the connection
    will deliver. *)
Definition stream (w : Server) : bytes := _buffer w ++ concat (pending w).

(** No call of [recv] returns [b''] before [pending] is exhausted: the
    peer closes only after it has sent everything. *)
Definition connected (w : Server) : Prop :=
  Forall (fun chunk : bytes => chunk <> []) (pending w).

(** ** The client, [CommandClient] *)

(** [str(n)] for an [int]: its decimal digits, after [-] when negative. *)
Definition str_of_int (n : Z) : str :=
  str_of_string (DecimalString.NilZero.string_of_int (Z.to_int n)).

(** How an f-string shows an [Optional[str]]. *)
Definition format_author (a : option str) : str :=
  match a with
  | Some s => s
  | None => str_of_string "None"%string
  end.

(** The arguments of one [print] call, separated by spaces. *)
Fixpoint print_args (args : list str) : str :=
  match args with
  | [] => []
  | [a] => a
  | a :: rest => a ++ str_of_string " "%string ++ print_args rest
  end.

Definition CommandClass_eqb (a b : CommandClass) : bool :=
  match a, b with
  | WhoCommand_cls, WhoCommand_cls
  | BoolCommand_cls, BoolCommand_cls
  | IsPrimeCommand_cls, IsPrimeCommand_cls
  | FinishSessionCommand_cls, FinishSessionCommand_cls
  | StatsCommand_cls, StatsCommand_cls => true
  | _, _ => false
  end.

(** [isinstance(command, command_type)]: [None] is an instance of no
    command class, and no command class derives from another. *)
Definition isinstance (command : option BaseCommand)
  (command_type : CommandClass) : bool :=
  match command with
  | Some c => CommandClass_eqb (class_of c) command_type
  | None => false
  end.

(** What the client can raise: [TypeError], or one of the exceptions the
    commands and the socket raise. *)
Inductive client_exn : Type :=
  | TypeError
  | Raised (e : exn).

(** The client object.  [sock] is its buffer and connection, with the
    components of [Server]: [_buffer], what [_socket.recv] will return, and
    what [_socket.sendall] was given.  [printed] collects the lines given
    to [print], [written] the strings given to [output_file.write]. *)
Record Client : Type := mkClient {
  sock : Server;
  printed : list str;
  written : list str
}.

(** A method of the client: it updates the client and returns ([inl]) or
    raises ([inr]). *)
Definition action (A : Type) : Type := Client -> Client * (A + client_exn).

Definition abind {A B : Type} (m : action A) (k : A -> action B) : action B :=
  fun cl =>
    match m cl with
    | (cl', inl a) => k a cl'
    | (cl', inr e) => (cl', inr e)
    end.

Notation "x <~~ m ;; k" := (abind m (fun x => k))
  (at level 61, m at next level, right associativity).

(** A method that only uses the socket and the buffer. *)
Definition on_sock {A : Type} (m : method A) : action A :=
  fun cl =>
    match m (sock cl) with
    | (s, Ok a) => (mkClient s (printed cl) (written cl), inl a)
    | (s, Error e) => (mkClient s (printed cl) (written cl), inr (Raised e))
    end.

Definition print (line : str) : action unit :=
  fun cl => (mkClient (sock cl) (printed cl ++ [line]) (written cl), inl tt).

Definition output_file_write (text : str) : action unit :=
  fun cl => (mkClient (sock cl) (printed cl) (written cl ++ [text]), inl tt).

(** [self.output_file.open('w')]: the file starts empty. *)
Definition output_file_open : action unit :=
  fun cl => (mkClient (sock cl) (printed cl) [], inl tt).

Module CommandClient.

Definition MESSAGE_HEADER_SIZE_LENGTH : nat := 1.

Definition commands_decode_table : list (str * CommandClass) :=
  [ (WhoCommand.name, WhoCommand_cls);
    (BoolCommand.name, BoolCommand_cls);
    (StatsCommand.name, StatsCommand_cls) ].

Fixpoint _recv_fill (pend : list bytes) (buffer : bytes) (n : Z)
  {struct pend} : bytes * list bytes * bool :=
  if Z.of_nat (length buffer) <? n then
    match pend with
    | [] => (buffer, [], true)
    | [] :: rest => (buffer, rest, true)
    | chunk :: rest => _recv_fill rest (buffer ++ chunk) n
    end
  else (buffer, pend, false).

Definition _recv (n : Z) : method bytes :=
  fun w =>
    let '(buffer, pend, broken) := _recv_fill (pending w) (_buffer w) n in
    if broken then (mkServer buffer pend (sent w), Error ConnectionBrokenError)
    else (mkServer (slice_from buffer n) pend (sent w), Ok (slice_to buffer n)).

Definition _send (data : bytes) : method unit :=
  fun w => (mkServer (_buffer w) (pending w) (sent w ++ [data]), Ok tt).

Definition _receive_message : method (option BaseCommand) :=
  header <~ _recv (Z.of_nat MESSAGE_HEADER_SIZE_LENGTH) ;;
  let header_length := int_from_bytes header false in
  if header_length =? Z.of_nat MESSAGE_HEADER_SIZE_LENGTH then ret None
  else
    name_bytes <~ _recv (header_length - Z.of_nat MESSAGE_HEADER_SIZE_LENGTH) ;;
    match bytes_decode name_bytes with
    | Error _ => raise UnrecognizedCommandError
    | Ok command_name =>
        match dict_get commands_decode_table command_name with
        | None => raise UnrecognizedCommandError
        | Some command_type =>
            command_data <~ _recv (Z.of_nat (data_length command_type)) ;;
            command <~ lift (from_bytes command_type command_data) ;;
            ret (Some command)
        end
    end.

Definition _send_command (command : BaseCommand) : method unit :=
  match str_encode (name (class_of command)) UnicodeEncodeError with
  | Error _ => raise UnrecognizedCommandError
  | Ok encoded_command_name =>
      let header_length :=
        Z.of_nat (MESSAGE_HEADER_SIZE_LENGTH + length encoded_command_name) in
      size <~ lift (int_to_bytes header_length MESSAGE_HEADER_SIZE_LENGTH false) ;;
      let header := size ++ encoded_command_name in
      data <~ lift (to_bytes command) ;;
      let message := header ++ data in
      _send message
  end.

Definition _receive_command (command_type : CommandClass) : action BaseCommand :=
  command <~~ on_sock _receive_message ;;
  if negb (isinstance command command_type)
  then fun cl => (cl, inr TypeError)
  else
    match command with
    | Some c => fun cl => (cl, inl c)
    | None => fun cl => (cl, inr TypeError)
    end.

Definition _print_author : action unit :=
  _ <~~ on_sock (_send_command (MkWho None)) ;;
  who_command <~~ _receive_command WhoCommand_cls ;;
  let who_author := match who_command with
                    | MkWho a => a
                    | _ => None
                    end in
  print (str_of_string "Author is: "%string ++ format_author who_author).

(** The body of the loop of [_filter_primes] for one number. *)
Definition _filter_primes_step (n : Z) : action unit :=
  fun cl =>
    let sending :=
      match IsPrimeCommand.__init__ n with
      | Ok command => on_sock (_send_command command) cl
      | Error e => (cl, inr (Raised e))
      end in
    match sending with
    | (cl1, inr (Raised OverflowError)) =>
        print (str_of_int n ++ str_of_string " is too big"%string) cl1
    | (cl1, inr e) => (cl1, inr e)
    | (cl1, inl _) =>
        match _receive_command BoolCommand_cls cl1 with
        | (cl2, inr TypeError) => (cl2, inl tt)
        | (cl2, inr e) => (cl2, inr e)
        | (cl2, inl response_command) =>
            let value := match response_command with
                         | MkBool v => v
                         | _ => false
                         end in
            if value then
              (_ <~~ print (str_of_int n ++ str_of_string " is prime"%string) ;;
               output_file_write (str_of_int n ++ [10])) cl2
            else
              print (str_of_int n ++ str_of_string " is not prime"%string) cl2
        end
    end.

(** [numbers] is the sequence the generator yields. *)
Fixpoint _filter_primes (numbers : list Z) : action unit :=
  match numbers with
  | [] => fun cl => (cl, inl tt)
  | n :: rest => _ <~~ _filter_primes_step n ;; _filter_primes rest
  end.

Definition _finish_session : action unit :=
  _ <~~ on_sock (_send_command MkFinishSession) ;;
  stats_command <~~ _receive_command StatsCommand_cls ;;
  let '(a, b, c, d) := match stats_command with
                       | MkStats a b c d => (a, b, c, d)
                       | _ => (0, 0, 0, 0)
                       end in
  _ <~~ print (str_of_string "Stats:"%string) ;;
  print (print_args
           [str_of_string "numbers_cnt="%string ++ str_of_int a;
            str_of_string "primes_cnt="%string ++ str_of_int b;
            str_of_string "min_value="%string ++ str_of_int c;
            str_of_string "max_value="%string ++ str_of_int d]).

Definition _filter_primes_mode (numbers : list Z) : action unit :=
  _ <~~ _print_author ;;
  _ <~~ output_file_open ;;
  _ <~~ _filter_primes numbers ;;
  _finish_session.

End CommandClient.

(** The message [_send_command] writes for a command, when it writes
    one. *)
Definition message_of (command : BaseCommand) : option bytes :=
  match CommandClient._send_command command (mkServer [] [] []) with
  | (w, Ok _) => Some (concat (sent w))
  | (_, Error _) => None
  end.

(** * Properties *)

(** ** Bytes *)

Lemma Z_of_byte_range (b : byte) : 0 <= Z_of_byte b < 256.
Proof.
  unfold Z_of_byte. pose proof (Byte.to_N_bounded b). lia.
Qed.

Lemma Z_of_byte_of_Z (z : Z) : Z_of_byte (byte_of_Z z) = z mod 256.
Proof.
  unfold Z_of_byte, byte_of_Z.
  assert (Hr : 0 <= z mod 256 < 256) by (apply Z.mod_pos_bound; lia).
  destruct (Byte.of_N (Z.to_N (z mod 256))) as [b|] eqn:E.
  - apply Byte.to_of_N in E. rewrite E. lia.
  - apply Byte.of_N_None_iff in E. lia.
Qed.

Lemma Z_of_byte_of_Z_small (z : Z) : 0 <= z < 256 -> Z_of_byte (byte_of_Z z) = z.
Proof.
  intros H. rewrite Z_of_byte_of_Z. apply Z.mod_small. exact H.
Qed.

Lemma byte_of_Z_of_byte (b : byte) : byte_of_Z (Z_of_byte b) = b.
Proof.
  unfold byte_of_Z. rewrite Z.mod_small by apply Z_of_byte_range.
  unfold Z_of_byte. rewrite N2Z.id, Byte.of_to_N. reflexivity.
Qed.

Lemma Z_of_byte_inj (a b : byte) : Z_of_byte a = Z_of_byte b -> a = b.
Proof.
  intros H. rewrite <- (byte_of_Z_of_byte a), <- (byte_of_Z_of_byte b), H.
  reflexivity.
Qed.

(** ** Little-endian integers *)

Lemma length_le_bytes (len : nat) (z : Z) : length (le_bytes len z) = len.
Proof.
  revert z. induction len as [|len IH]; intros z; simpl; [reflexivity|].
  now rewrite IH.
Qed.

Lemma le_unsigned_range (bs : bytes) :
  0 <= le_unsigned bs < 2 ^ bit_length bs.
Proof.
  unfold bit_length. induction bs as [|b bs IH].
  - simpl. lia.
  - cbn [le_unsigned length]. pose proof (Z_of_byte_range b).
    replace (8 * Z.of_nat (S (length bs))) with (8 + 8 * Z.of_nat (length bs)) by lia.
    rewrite Z.pow_add_r by lia. change (2 ^ 8) with 256. lia.
Qed.

Lemma le_unsigned_le_bytes (len : nat) (z : Z) :
  le_unsigned (le_bytes len z) = z mod 2 ^ (8 * Z.of_nat len).
Proof.
  revert z. induction len as [|len IH]; intros z.
  - simpl. now rewrite Z.mod_1_r.
  - cbn [le_bytes le_unsigned]. rewrite IH, Z_of_byte_of_Z.
    replace (8 * Z.of_nat (S len)) with (8 + 8 * Z.of_nat len) by lia.
    rewrite Z.pow_add_r by lia. change (2 ^ 8) with 256.
    rewrite Z.rem_mul_r by lia. reflexivity.
Qed.

Lemma le_bytes_le_unsigned (bs : bytes) :
  le_bytes (length bs) (le_unsigned bs) = bs.
Proof.
  induction bs as [|b bs IH]; [reflexivity|].
  cbn [length le_bytes le_unsigned]. pose proof (Z_of_byte_range b) as Hb.
  f_equal.
  - rewrite <- (byte_of_Z_of_byte b) at 2. unfold byte_of_Z.
    replace ((Z_of_byte b + 256 * le_unsigned bs) mod 256) with (Z_of_byte b mod 256);
      [reflexivity|].
    rewrite (Z.mul_comm 256), Z.mod_add by lia. reflexivity.
  - replace ((Z_of_byte b + 256 * le_unsigned bs) / 256) with (le_unsigned bs);
      [exact IH|].
    rewrite (Z.mul_comm 256), Z.div_add by lia.
    rewrite Z.div_small by lia. lia.
Qed.

Lemma testbit_top (u k : Z) :
  0 < k -> 0 <= u < 2 ^ k -> Z.testbit u (k - 1) = (2 ^ (k - 1) <=? u).
Proof.
  intros Hk Hu.
  assert (Hp : 2 ^ k = 2 * 2 ^ (k - 1)).
  { rewrite <- Z.pow_succ_r by lia. f_equal. lia. }
  assert (H0 : 0 < 2 ^ (k - 1)) by (apply Z.pow_pos_nonneg; lia).
  pose proof (Z.testbit_spec' u (k - 1) ltac:(lia)) as Hs.
  destruct (Z.leb_spec (2 ^ (k - 1)) u) as [Hge|Hlt].
  - assert (H : u / 2 ^ (k - 1) = 1).
    { symmetry. apply Z.div_unique with (r := u - 2 ^ (k - 1)); lia. }
    rewrite H in Hs. destruct (Z.testbit u (k - 1)); [reflexivity|discriminate].
  - rewrite Z.div_small in Hs by lia.
    destruct (Z.testbit u (k - 1)); [discriminate|reflexivity].
Qed.

(** The signed reading of [bs] lies in the two's complement range of its
    width. *)
Lemma int_from_bytes_signed_range (bs : bytes) :
  bs <> [] ->
  - 2 ^ (bit_length bs - 1) <= int_from_bytes bs true < 2 ^ (bit_length bs - 1).
Proof.
  intros Hne. unfold int_from_bytes. cbn [andb].
  pose proof (le_unsigned_range bs) as Hu.
  assert (Hk : 0 < bit_length bs).
  { unfold bit_length. destruct bs; [congruence|cbn [length]; lia]. }
  assert (Hp : 2 ^ bit_length bs = 2 * 2 ^ (bit_length bs - 1)).
  { rewrite <- Z.pow_succ_r by lia. f_equal. lia. }
  rewrite testbit_top by lia.
  destruct (Z.leb_spec (2 ^ (bit_length bs - 1)) (le_unsigned bs)); lia.
Qed.

Lemma int_from_bytes_signed_le_bytes (len : nat) (n : Z) :
  (0 < len)%nat ->
  - 2 ^ (8 * Z.of_nat len - 1) <= n < 2 ^ (8 * Z.of_nat len - 1) ->
  int_from_bytes (le_bytes len (n mod 2 ^ (8 * Z.of_nat len))) true = n.
Proof.
  intros Hlen Hn. unfold int_from_bytes. cbn [andb].
  assert (Hbl : bit_length (le_bytes len (n mod 2 ^ (8 * Z.of_nat len))) = 8 * Z.of_nat len).
  { unfold bit_length. now rewrite length_le_bytes. }
  rewrite Hbl, le_unsigned_le_bytes, Z.mod_mod by (apply Z.pow_nonzero; lia).
  set (k := 8 * Z.of_nat len) in *.
  assert (Hp : 2 ^ k = 2 * 2 ^ (k - 1)).
  { rewrite <- Z.pow_succ_r by lia. f_equal. lia. }
  assert (H0 : 0 < 2 ^ (k - 1)) by (apply Z.pow_pos_nonneg; lia).
  assert (Hm : 0 <= n mod 2 ^ k < 2 ^ k) by (apply Z.mod_pos_bound; lia).
  rewrite testbit_top by lia.
  destruct (Z_lt_le_dec n 0) as [Hneg|Hpos].
  - assert (E : n mod 2 ^ k = n + 2 ^ k).
    { symmetry. apply Z.mod_unique with (q := -1); lia. }
    rewrite E. destruct (Z.leb_spec (2 ^ (k - 1)) (n + 2 ^ k)); lia.
  - rewrite Z.mod_small by lia.
    destruct (Z.leb_spec (2 ^ (k - 1)) n); lia.
Qed.

(** ** UTF-8 *)

Ltac arith_absurd := exfalso; Z.div_mod_to_equations; lia.

Ltac split_tests :=
  repeat match goal with
    | |- context [?a =? ?b] =>
        destruct (Z.eqb_spec a b); try arith_absurd
    end;
  repeat match goal with
    | |- context [?a <? ?b] =>
        destruct (Z.ltb_spec a b); try arith_absurd
    | |- context [?a <=? ?b] =>
        destruct (Z.leb_spec a b); try arith_absurd
    end.

Ltac byte_values :=
  rewrite ?Z_of_byte_of_Z_small by (Z.div_mod_to_equations; lia).

Lemma bind_cons_ext (r : result str) (x y : Z) :
  x = y -> (s <- r ;; Ok (x :: s)) = (s <- r ;; Ok (y :: s)).
Proof. intros ->. reflexivity. Qed.

Lemma Some_inj {A : Type} (a b : A) : Some a = Some b -> a = b.
Proof. congruence. Qed.

(** Decoding consumes exactly the bytes of one encoded code point. *)
Lemma bytes_decode_encode_char (c : Z) (e rest : bytes) :
  utf8_encode_char c = Some e ->
  bytes_decode (e ++ rest) = (s <- bytes_decode rest ;; Ok (c :: s)).
Proof.
  unfold utf8_encode_char, is_surrogate. intros H.
  destruct (Z.ltb_spec c 0); [discriminate|].
  destruct (Z.ltb_spec c 0x80).
  { apply Some_inj in H; subst e. cbn [app bytes_decode]. byte_values.
    split_tests. reflexivity. }
  destruct (Z.ltb_spec c 0x800).
  { apply Some_inj in H; subst e. cbn [app bytes_decode]. unfold in_range. byte_values.
    split_tests. cbn [andb]. apply bind_cons_ext.
    Z.div_mod_to_equations; lia. }
  destruct (Z.ltb_spec c 0x10000).
  { destruct (Z.leb_spec 0xD800 c); destruct (Z.leb_spec c 0xDFFF);
      cbn [andb] in H; try discriminate;
      apply Some_inj in H; subst e; cbn [app bytes_decode]; unfold in_range; byte_values;
      split_tests; cbn [andb]; apply bind_cons_ext;
      Z.div_mod_to_equations; lia. }
  destruct (Z.ltb_spec c 0x110000); [|discriminate].
  apply Some_inj in H; subst e. cbn [app bytes_decode]. unfold in_range. byte_values.
  split_tests; cbn [andb]; apply bind_cons_ext; Z.div_mod_to_equations; lia.
Qed.

Lemma bytes_decode_encode_app (s : str) (e rest : bytes) :
  utf8_encode s = Some e ->
  bytes_decode (e ++ rest) = (t <- bytes_decode rest ;; Ok (s ++ t)).
Proof.
  revert e. induction s as [|c s IH]; intros e H.
  - injection H as <-. cbn [app]. destruct (bytes_decode rest); reflexivity.
  - cbn [utf8_encode] in H.
    destruct (utf8_encode_char c) as [ec|] eqn:Ec; [|discriminate].
    destruct (utf8_encode s) as [es|] eqn:Es; [|discriminate].
    injection H as <-. rewrite <- app_assoc.
    rewrite (bytes_decode_encode_char c ec _ Ec), (IH es eq_refl).
    destruct (bytes_decode rest); reflexivity.
Qed.

(** Strict decoding inverts encoding. *)
Lemma bytes_decode_encode (s : str) (e : bytes) :
  utf8_encode s = Some e -> bytes_decode e = Ok s.
Proof.
  intros H. pose proof (bytes_decode_encode_app s e [] H) as D.
  rewrite app_nil_r in D. rewrite D. cbn [bytes_decode bind].
  now rewrite app_nil_r.
Qed.

(** ** NUL padding and stripping *)

Lemma non_nul_byte_of_Z (v : Z) : 0 < v < 256 -> non_nul (byte_of_Z v).
Proof.
  intros H. unfold non_nul, is_nul. rewrite Z_of_byte_of_Z_small by lia.
  apply Z.eqb_neq. lia.
Qed.

(** No byte of the encoding of a code point other than U+0000 is NUL. *)
Lemma utf8_encode_char_non_nul (c : Z) (e : bytes) :
  utf8_encode_char c = Some e -> c <> 0 -> e <> [] /\ Forall non_nul e.
Proof.
  unfold utf8_encode_char, is_surrogate. intros H Hc.
  destruct (Z.ltb_spec c 0); [discriminate|].
  destruct (Z.ltb_spec c 0x80);
    [|destruct (Z.ltb_spec c 0x800);
      [|destruct (Z.ltb_spec c 0x10000);
        [destruct ((0xD800 <=? c) && (c <=? 0xDFFF)); [discriminate|]
        |destruct (Z.ltb_spec c 0x110000); [|discriminate]]]];
    apply Some_inj in H; subst e; (split; [discriminate|]);
    repeat constructor; apply non_nul_byte_of_Z;
    Z.div_mod_to_equations; lia.
Qed.

Lemma utf8_encode_app (s t : str) :
  utf8_encode (s ++ t) =
  match utf8_encode s, utf8_encode t with
  | Some a, Some b => Some (a ++ b)
  | _, _ => None
  end.
Proof.
  induction s as [|c s IH]; cbn [app utf8_encode].
  - destruct (utf8_encode t); reflexivity.
  - rewrite IH. destruct (utf8_encode_char c) as [ec|]; [|reflexivity].
    destruct (utf8_encode s), (utf8_encode t); try reflexivity.
    now rewrite app_assoc.
Qed.

Lemma lstrip_nul_repeat (k : nat) (l : bytes) :
  lstrip_nul (repeat x00 k ++ l) = lstrip_nul l.
Proof.
  induction k as [|k IH]; [reflexivity|]. cbn [repeat app lstrip_nul].
  exact IH.
Qed.

Lemma lstrip_nul_non_nul (b : byte) (l : bytes) :
  non_nul b -> lstrip_nul (b :: l) = b :: l.
Proof.
  intros H. cbn [lstrip_nul]. now rewrite H.
Qed.

Lemma rstrip_nul_pad (e : bytes) (k : nat) :
  rstrip_nul (e ++ repeat x00 k) = rstrip_nul e.
Proof.
  unfold rstrip_nul. now rewrite rev_app_distr, rev_repeat, lstrip_nul_repeat.
Qed.

Lemma rstrip_nul_non_nul (e : bytes) (b : byte) :
  non_nul b -> rstrip_nul (e ++ [b]) = e ++ [b].
Proof.
  intros H. unfold rstrip_nul. rewrite rev_app_distr. cbn [rev app].
  rewrite lstrip_nul_non_nul by exact H. cbn [rev]. now rewrite rev_involutive.
Qed.

(** Stripping undoes the padding of a string that neither starts nor ends
    with a NUL byte. *)
Lemma strip_nul_pad (b1 b2 : byte) (e1 e2 : bytes) (k : nat) :
  non_nul b1 -> non_nul b2 -> b1 :: e1 = e2 ++ [b2] ->
  strip_nul ((b1 :: e1) ++ repeat x00 k) = b1 :: e1.
Proof.
  intros H1 H2 E. unfold strip_nul. rewrite rstrip_nul_pad, E.
  rewrite rstrip_nul_non_nul by exact H2. rewrite <- E.
  now apply lstrip_nul_non_nul.
Qed.

Lemma strip_nul_all_nul (k : nat) : strip_nul (repeat x00 k) = [].
Proof.
  unfold strip_nul.
  replace (repeat x00 k) with ([] ++ repeat x00 k) at 1 by reflexivity.
  rewrite rstrip_nul_pad. reflexivity.
Qed.

(** The encoding of a string that starts and ends with a code point other
    than U+0000 starts and ends with a byte other than NUL. *)
Lemma utf8_encode_ends (s : str) (e : bytes) :
  utf8_encode s = Some e -> hd 0 s <> 0 -> last s 0 <> 0 ->
  exists b1 e1 b2 e2,
    e = b1 :: e1 /\ e = e2 ++ [b2] /\ non_nul b1 /\ non_nul b2.
Proof.
  intros H Hhd Hlast.
  assert (Hne : s <> []) by (intros ->; now apply Hhd).
  assert (exists b1 e1, e = b1 :: e1 /\ non_nul b1) as (b1 & e1 & E1 & N1).
  { destruct s as [|c s']; [congruence|]. cbn [hd] in Hhd.
    cbn [utf8_encode] in H.
    destruct (utf8_encode_char c) as [ec|] eqn:Ec; [|discriminate].
    destruct (utf8_encode s') as [es|]; [|discriminate].
    apply Some_inj in H; subst e.
    destruct (utf8_encode_char_non_nul c ec Ec Hhd) as [Hn Hf].
    destruct ec as [|b ec']; [congruence|].
    exists b, (ec' ++ es). split; [reflexivity|]. now inversion Hf. }
  assert (exists b2 e2, e = e2 ++ [b2] /\ non_nul b2) as (b2 & e2 & E2 & N2).
  { destruct (exists_last Hne) as (s' & c & Es). subst s.
    rewrite last_last in Hlast. rewrite utf8_encode_app in H.
    destruct (utf8_encode s') as [es|]; [|discriminate].
    cbn [utf8_encode] in H.
    destruct (utf8_encode_char c) as [ec|] eqn:Ec; [|discriminate].
    apply Some_inj in H; subst e. rewrite app_nil_r.
    destruct (utf8_encode_char_non_nul c ec Ec Hlast) as [Hn Hf].
    destruct (exists_last Hn) as (ec' & b & Eec). subst ec.
    exists b, (es ++ ec'). split; [now rewrite app_assoc|].
    apply Forall_app in Hf. destruct Hf as [_ Hf]. now inversion Hf. }
  exists b1, e1, b2, e2. auto.
Qed.

(** ** The codecs of the command classes *)

Lemma Ok_inj {A : Type} (a b : A) : Ok a = Ok b -> a = b.
Proof. congruence. Qed.

Ltac ok_subst H := apply Ok_inj in H; subst.

Lemma int_to_bytes_length (n : Z) (len : nat) (signed : bool) (bs : bytes) :
  int_to_bytes n len signed = Ok bs -> length bs = len.
Proof.
  unfold int_to_bytes.
  destruct (if signed then _ else _); [|discriminate].
  intros H. ok_subst H. apply length_le_bytes.
Qed.

Lemma struct_pack_iiii_length (a b c d : Z) (bs : bytes) :
  struct_pack_iiii a b c d = Ok bs -> length bs = 16%nat.
Proof.
  unfold struct_pack_iiii.
  destruct (int32_ok a && int32_ok b && int32_ok c && int32_ok d);
    [|discriminate].
  intros H. ok_subst H. rewrite !length_app, !length_le_bytes. reflexivity.
Qed.

Lemma length_ljust (bs : bytes) (width : nat) (fill : byte) :
  length (ljust bs width fill) = Nat.max (length bs) width.
Proof.
  unfold ljust. rewrite length_app, repeat_length. lia.
Qed.

Lemma WhoCommand_to_bytes_length (a : option str) (bs : bytes) :
  WhoCommand.to_bytes a = Ok bs -> length bs = WhoCommand.data_length.
Proof.
  unfold WhoCommand.to_bytes.
  destruct a as [[|c s]|]; try (intros H; ok_subst H; apply repeat_length).
  destruct (str_encode (c :: s) LookupError) as [e|]; [|discriminate].
  cbn [bind].
  destruct (Nat.ltb_spec WhoCommand.data_length
              (length (ljust e WhoCommand.data_length x00))) as [|Hle];
    [discriminate|].
  intros H. ok_subst H. rewrite length_ljust in *. lia.
Qed.

(** Whatever [to_bytes] returns has the length the class declares. *)
Lemma to_bytes_length (c : BaseCommand) (bs : bytes) :
  to_bytes c = Ok bs -> length bs = data_length (class_of c).
Proof.
  destruct c as [a|v|n| |a b c d]; cbn [to_bytes class_of data_length].
  - apply WhoCommand_to_bytes_length.
  - apply int_to_bytes_length.
  - apply int_to_bytes_length.
  - intros H. ok_subst H. reflexivity.
  - apply struct_pack_iiii_length.
Qed.

Lemma int32_ok_spec (n : Z) :
  int32_ok n = true <-> - 2 ^ 31 <= n <= 2 ^ 31 - 1.
Proof.
  unfold int32_ok. rewrite andb_true_iff, Z.leb_le, Z.leb_le. tauto.
Qed.

Lemma int_from_bytes_int32 (n : Z) :
  int32_ok n = true ->
  int_from_bytes (le_bytes 4 (n mod 2 ^ 32)) true = n.
Proof.
  intros H. apply int32_ok_spec in H.
  apply (int_from_bytes_signed_le_bytes 4 n); [lia|].
  change (8 * Z.of_nat 4 - 1) with 31. lia.
Qed.

Lemma IsPrimeCommand_roundtrip (n : Z) :
  IsPrimeCommand.MIN_ALLOWED <= n <= IsPrimeCommand.MAX_ALLOWED ->
  IsPrimeCommand.to_bytes n = Ok (le_bytes 4 (n mod 2 ^ 32)) /\
  IsPrimeCommand.from_bytes (le_bytes 4 (n mod 2 ^ 32)) = Ok (MkIsPrime n).
Proof.
  unfold IsPrimeCommand.MIN_ALLOWED, IsPrimeCommand.MAX_ALLOWED. intros H.
  split.
  - unfold IsPrimeCommand.to_bytes, int_to_bytes, IsPrimeCommand.data_length.
    change (2 ^ (8 * Z.of_nat 4)) with (2 ^ 32).
    destruct (Z.leb_spec (- 2 ^ 32) (2 * n)); [|lia].
    destruct (Z.ltb_spec (2 * n) (2 ^ 32)); [|lia]. reflexivity.
  - unfold IsPrimeCommand.from_bytes. rewrite int_from_bytes_int32
      by (apply int32_ok_spec; lia).
    unfold IsPrimeCommand.__init__, IsPrimeCommand.MIN_ALLOWED,
      IsPrimeCommand.MAX_ALLOWED.
    destruct (Z.leb_spec (- 2 ^ 31) n); [|lia].
    destruct (Z.leb_spec n (2 ^ 31 - 1)); [|lia]. reflexivity.
Qed.

Lemma StatsCommand_roundtrip (a b c d : Z) :
  int32_ok a && int32_ok b && int32_ok c && int32_ok d = true ->
  exists bs, StatsCommand.to_bytes a b c d = Ok bs /\
             StatsCommand.from_bytes bs = Ok (MkStats a b c d).
Proof.
  intros H. unfold StatsCommand.to_bytes, struct_pack_iiii. rewrite H.
  eexists. split; [reflexivity|].
  apply andb_true_iff in H. destruct H as [H Hd].
  apply andb_true_iff in H. destruct H as [H Hc].
  apply andb_true_iff in H. destruct H as [Ha Hb].
  unfold StatsCommand.from_bytes.
  cbn [le_bytes app struct_unpack_iiii bind].
  change (Ok (MkStats (int_from_bytes (le_bytes 4 (a mod 2 ^ 32)) true)
                      (int_from_bytes (le_bytes 4 (b mod 2 ^ 32)) true)
                      (int_from_bytes (le_bytes 4 (c mod 2 ^ 32)) true)
                      (int_from_bytes (le_bytes 4 (d mod 2 ^ 32)) true))
          = Ok (MkStats a b c d)).
  now rewrite !int_from_bytes_int32.
Qed.

Lemma WhoCommand_roundtrip (a : str) (e : bytes) :
  utf8_encode a = Some e -> (length e <= WhoCommand.data_length)%nat ->
  hd 0 a <> 0 -> last a 0 <> 0 ->
  exists bs, WhoCommand.to_bytes (Some a) = Ok bs /\
             WhoCommand.from_bytes bs = Ok (MkWho (Some a)).
Proof.
  intros He Hlen Hhd Hlast.
  destruct (utf8_encode_ends a e He Hhd Hlast)
    as (b1 & e1 & b2 & e2 & E1 & E2 & N1 & N2).
  destruct a as [|c s]; [now elim Hhd|].
  unfold WhoCommand.to_bytes, str_encode. rewrite He. cbn [bind].
  destruct (Nat.ltb_spec WhoCommand.data_length
              (length (ljust e WhoCommand.data_length x00))) as [Hlt|_].
  { rewrite length_ljust in Hlt. lia. }
  eexists. split; [reflexivity|].
  unfold WhoCommand.from_bytes, ljust. subst e.
  rewrite (strip_nul_pad b1 b2 e1 e2 _ N1 N2 E2).
  rewrite (bytes_decode_encode _ _ He). reflexivity.
Qed.

Lemma WhoCommand_roundtrip_None :
  WhoCommand.from_bytes (repeat x00 WhoCommand.data_length) = Ok (MkWho None).
Proof.
  unfold WhoCommand.from_bytes. rewrite strip_nul_all_nul. reflexivity.
Qed.

(** C6.  For every command value of the codec's domain, [to_bytes] yields a
    payload whose length is the [data_length] its class declares: 128 for
    [who] (with no author, and with any author whose encoding has at most
    128 bytes), 1 for [bool], 4 for [isprime], 0 for [finishsession] and 16
    for [stats]. *)
Theorem to_bytes_data_length (c : BaseCommand) :
  in_domain c = true ->
  exists bs, to_bytes c = Ok bs /\
             length bs = data_length (class_of c) /\
             data_length (class_of c) =
               (match c with
                | MkWho _ => 128
                | MkBool _ => 1
                | MkIsPrime _ => 4
                | MkFinishSession => 0
                | MkStats _ _ _ _ => 16
                end)%nat.
Proof.
  intros Hd.
  assert (Hok : exists bs, to_bytes c = Ok bs).
  { destruct c as [[a|]|v|n| |a b c d]; cbn [in_domain to_bytes] in *.
    - destruct (utf8_encode a) as [e|] eqn:He; [|discriminate].
      apply Nat.leb_le in Hd. unfold WhoCommand.to_bytes, str_encode.
      destruct a as [|c s]; [eexists; reflexivity|]. rewrite He. cbn [bind].
      destruct (Nat.ltb_spec WhoCommand.data_length
                  (length (ljust e WhoCommand.data_length x00))) as [Hlt|_].
      { rewrite length_ljust in Hlt. lia. }
      eexists; reflexivity.
    - eexists; reflexivity.
    - destruct v; eexists; reflexivity.
    - apply andb_true_iff in Hd. rewrite !Z.leb_le in Hd.
      eexists. apply (IsPrimeCommand_roundtrip n). lia.
    - eexists; reflexivity.
    - destruct (StatsCommand_roundtrip a b c d Hd) as (bs & H & _).
      now exists bs. }
  destruct Hok as [bs Hbs]. exists bs. split; [exact Hbs|]. split.
  - now apply to_bytes_length.
  - destruct c; reflexivity.
Qed.

Lemma to_bytes_data_length_witness :
  exists bs, to_bytes (MkWho (Some [65; 66])) = Ok bs /\
             length bs = data_length (class_of (MkWho (Some [65; 66]))) /\
             data_length (class_of (MkWho (Some [65; 66]))) = 128%nat.
Proof.
  apply (to_bytes_data_length (MkWho (Some [65; 66]))). reflexivity.
Defined.

(** C2 (as amended).  Decoding the encoding of a command gives the command
    back, for every [isprime], [bool], [finishsession] and [stats] value of
    the domain (the bounds [-2^31] and [2^31-1] included), for [who] with no
    author, and for [who] with an author of at most 128 encoded bytes that
    neither starts nor ends with U+0000. *)
Theorem from_bytes_to_bytes (c : BaseCommand) :
  in_domain c = true ->
  match c with
  | MkWho (Some a) => hd 0 a <> 0 /\ last a 0 <> 0
  | _ => True
  end ->
  exists bs, to_bytes c = Ok bs /\ from_bytes (class_of c) bs = Ok c.
Proof.
  intros Hd Hends.
  destruct c as [[a|]|v|n| |a b c d];
    cbn [in_domain to_bytes class_of from_bytes] in *.
  - destruct (utf8_encode a) as [e|] eqn:He; [|discriminate].
    apply Nat.leb_le in Hd. destruct Hends as [Hhd Hlast].
    exact (WhoCommand_roundtrip a e He Hd Hhd Hlast).
  - eexists. split; [reflexivity|]. exact WhoCommand_roundtrip_None.
  - destruct v; eexists; split; reflexivity.
  - apply andb_true_iff in Hd. rewrite !Z.leb_le in Hd.
    eexists. apply (IsPrimeCommand_roundtrip n). lia.
  - eexists. split; reflexivity.
  - exact (StatsCommand_roundtrip a b c d Hd).
Qed.

Lemma from_bytes_to_bytes_witness :
  exists bs,
    to_bytes (MkStats 4 3 (- 2 ^ 31) (2 ^ 31 - 1)) = Ok bs /\
    from_bytes StatsCommand_cls bs = Ok (MkStats 4 3 (- 2 ^ 31) (2 ^ 31 - 1)).
Proof.
  apply (from_bytes_to_bytes (MkStats 4 3 (- 2 ^ 31) (2 ^ 31 - 1)));
    [reflexivity | exact I].
Defined.

(** C2 as stated fails: the author ["A\0"] is in the domain of [who], its
    encoding is padded with NUL bytes, and decoding strips the author's own
    trailing NUL with the padding. *)
Lemma who_roundtrip_loses_nul :
  in_domain (MkWho (Some [65; 0])) = true /\
  (bs <- to_bytes (MkWho (Some [65; 0])) ;; from_bytes WhoCommand_cls bs)
    = Ok (MkWho (Some [65])) /\
  MkWho (Some [65]) <> MkWho (Some [65; 0]).
Proof.
  split; [reflexivity|]. split; [reflexivity|]. discriminate.
Qed.

(** C8.  A one-byte [bool] payload decodes to [bool(0)] when the byte is 0,
    to [bool(1)] when it is 1, and raises [ValueError] for the values 2 to
    255; so decoding succeeds exactly for the bytes 0 and 1. *)
Theorem BoolCommand_from_bytes_one_byte (b : byte) :
  BoolCommand.from_bytes [b] =
    (if Z_of_byte b =? 0 then Ok (MkBool false)
     else if Z_of_byte b =? 1 then Ok (MkBool true)
     else Error ValueError) /\
  (is_ok (BoolCommand.from_bytes [b]) = true <-> b = x00 \/ b = x01).
Proof.
  assert (E : BoolCommand.from_bytes [b] =
    (if Z_of_byte b =? 0 then Ok (MkBool false)
     else if Z_of_byte b =? 1 then Ok (MkBool true)
     else Error ValueError)).
  { unfold BoolCommand.from_bytes, int_from_bytes. cbn [andb le_unsigned].
    rewrite Z.mul_0_r, Z.add_0_r.
    destruct (Z.eqb_spec (Z_of_byte b) 0) as [E0|H0]; [reflexivity|].
    destruct (Z.eqb_spec (Z_of_byte b) 1) as [E1|H1]; reflexivity. }
  split; [exact E|]. rewrite E.
  change 0 with (Z_of_byte x00) at 1. change 1 with (Z_of_byte x01) at 1.
  destruct (Z.eqb_spec (Z_of_byte b) (Z_of_byte x00)) as [H0|H0].
  { apply Z_of_byte_inj in H0. split; auto. }
  destruct (Z.eqb_spec (Z_of_byte b) (Z_of_byte x01)) as [H1|H1].
  { apply Z_of_byte_inj in H1. split; auto. }
  split; [discriminate|]. intros [->| ->]; congruence.
Qed.

Lemma BoolCommand_from_bytes_one_byte_witness :
  BoolCommand.from_bytes [x02] = Error ValueError /\
  BoolCommand.from_bytes [x01] = Ok (MkBool true).
Proof.
  split.
  - exact (proj1 (BoolCommand_from_bytes_one_byte x02)).
  - exact (proj1 (BoolCommand_from_bytes_one_byte x01)).
Defined.

(** C9.  Decoding an [isprime] payload of 4 bytes always succeeds: the
    signed value of 4 little-endian bytes lies within [MIN_ALLOWED] and
    [MAX_ALLOWED], so [__init__] does not raise [OverflowError]. *)
Theorem IsPrimeCommand_from_bytes_total (data_bytes : bytes) :
  length data_bytes = 4%nat ->
  exists n,
    IsPrimeCommand.from_bytes data_bytes = Ok (MkIsPrime n) /\
    n = int_from_bytes data_bytes true /\
    IsPrimeCommand.MIN_ALLOWED <= n <= IsPrimeCommand.MAX_ALLOWED.
Proof.
  intros Hlen. exists (int_from_bytes data_bytes true).
  assert (Hne : data_bytes <> []) by (intros ->; discriminate).
  pose proof (int_from_bytes_signed_range data_bytes Hne) as Hr.
  unfold bit_length in Hr. rewrite Hlen in Hr.
  change (8 * Z.of_nat 4 - 1) with 31 in Hr.
  unfold IsPrimeCommand.from_bytes, IsPrimeCommand.__init__,
    IsPrimeCommand.MIN_ALLOWED, IsPrimeCommand.MAX_ALLOWED.
  destruct (Z.leb_spec (- 2 ^ 31) (int_from_bytes data_bytes true)); [|lia].
  destruct (Z.leb_spec (int_from_bytes data_bytes true) (2 ^ 31 - 1)); [|lia].
  cbn [andb negb]. repeat split; lia.
Qed.

Lemma IsPrimeCommand_from_bytes_total_witness :
  exists n,
    IsPrimeCommand.from_bytes [xff; xff; xff; x7f] = Ok (MkIsPrime n) /\
    n = int_from_bytes [xff; xff; xff; x7f] true /\
    IsPrimeCommand.MIN_ALLOWED <= n <= IsPrimeCommand.MAX_ALLOWED.
Proof.
  apply (IsPrimeCommand_from_bytes_total [xff; xff; xff; x7f]). reflexivity.
Defined.

(** ** Payloads of another length *)

Lemma struct_unpack_iiii_length (data : bytes) :
  length data <> 16%nat -> struct_unpack_iiii data = Error struct_error.
Proof.
  intros H.
  do 16 (destruct data as [|? data]; [reflexivity|]).
  destruct data; [now elim H | reflexivity].
Qed.

(** A signed value of at most 4 bytes fits in 32 bits. *)
Lemma int_from_bytes_short (bs : bytes) :
  (length bs <= 4)%nat -> - 2 ^ 31 <= int_from_bytes bs true <= 2 ^ 31 - 1.
Proof.
  intros Hlen. destruct bs as [|b bs]; [vm_compute; split; discriminate|].
  pose proof (int_from_bytes_signed_range (b :: bs) ltac:(discriminate)) as Hr.
  assert (Hk : 8 <= bit_length (b :: bs) <= 32).
  { unfold bit_length. cbn [length] in *. lia. }
  assert (Hp : 2 ^ (bit_length (b :: bs) - 1) <= 2 ^ 31).
  { apply Z.pow_le_mono_r; lia. }
  lia.
Qed.

Lemma WhoCommand_from_bytes_padded (a : str) (e : bytes) (k : nat) :
  utf8_encode a = Some e -> hd 0 a <> 0 -> last a 0 <> 0 ->
  WhoCommand.from_bytes (e ++ repeat x00 k) = Ok (MkWho (Some a)).
Proof.
  intros He Hhd Hlast.
  destruct (utf8_encode_ends a e He Hhd Hlast)
    as (b1 & e1 & b2 & e2 & E1 & E2 & N1 & N2).
  unfold WhoCommand.from_bytes. subst e.
  rewrite (strip_nul_pad b1 b2 e1 e2 _ N1 N2 E2).
  rewrite (bytes_decode_encode _ _ He).
  destruct a; [now elim Hhd | reflexivity].
Qed.

(** C5 (as amended).  Only the [stats] decoder rejects a payload for its
    length: it raises [struct.error] unless there are exactly 16 bytes.
    The other decoders do not look at the length: [finishsession] decodes
    any payload; [isprime] decodes every payload of at most 4 bytes; [bool]
    decodes any payload whose little-endian value is 0 or 1; [who] decodes
    an author followed by NUL padding of any length. *)
Theorem from_bytes_wrong_length :
  (forall data, length data <> data_length StatsCommand_cls ->
     from_bytes StatsCommand_cls data = Error struct_error) /\
  (forall data, from_bytes FinishSessionCommand_cls data = Ok MkFinishSession) /\
  (forall data, (length data <= data_length IsPrimeCommand_cls)%nat ->
     from_bytes IsPrimeCommand_cls data
       = Ok (MkIsPrime (int_from_bytes data true))) /\
  (forall data,
     from_bytes BoolCommand_cls data =
       if le_unsigned data =? 0 then Ok (MkBool false)
       else if le_unsigned data =? 1 then Ok (MkBool true)
       else Error ValueError) /\
  (forall a e k, utf8_encode a = Some e -> hd 0 a <> 0 -> last a 0 <> 0 ->
     from_bytes WhoCommand_cls (e ++ repeat x00 k) = Ok (MkWho (Some a))) /\
  (forall k, from_bytes WhoCommand_cls (repeat x00 k) = Ok (MkWho None)).
Proof.
  repeat apply conj.
  - intros data H. cbn [from_bytes]. unfold StatsCommand.from_bytes.
    now rewrite (struct_unpack_iiii_length data H).
  - reflexivity.
  - intros data H. cbn [from_bytes data_length] in *.
    pose proof (int_from_bytes_short data H) as Hr.
    unfold IsPrimeCommand.from_bytes, IsPrimeCommand.__init__,
      IsPrimeCommand.MIN_ALLOWED, IsPrimeCommand.MAX_ALLOWED.
    destruct (Z.leb_spec (- 2 ^ 31) (int_from_bytes data true)); [|lia].
    destruct (Z.leb_spec (int_from_bytes data true) (2 ^ 31 - 1)); [|lia].
    reflexivity.
  - intros data. cbn [from_bytes].
    unfold BoolCommand.from_bytes, int_from_bytes. cbn [andb].
    destruct (Z.eqb_spec (le_unsigned data) 0) as [E0|H0]; [reflexivity|].
    destruct (Z.eqb_spec (le_unsigned data) 1) as [E1|H1]; reflexivity.
  - intros a e k. apply WhoCommand_from_bytes_padded.
  - intros k. cbn [from_bytes]. unfold WhoCommand.from_bytes.
    now rewrite strip_nul_all_nul.
Qed.

Lemma from_bytes_wrong_length_witness :
  from_bytes StatsCommand_cls [x01; x02] = Error struct_error /\
  from_bytes IsPrimeCommand_cls [x05] = Ok (MkIsPrime 5) /\
  from_bytes WhoCommand_cls ([byte_of_Z 88] ++ repeat x00 3)
    = Ok (MkWho (Some [88])).
Proof.
  destruct from_bytes_wrong_length as (Hs & _ & Hi & _ & Hw & _).
  split; [|split].
  - apply Hs. discriminate.
  - apply (Hi [x05]). cbv. lia.
  - apply (Hw [88]); [reflexivity | discriminate | discriminate].
Defined.

(** C5 as stated fails: [isprime] decodes a payload of one byte, [bool] the
    empty payload, [who] a payload of three bytes and [finishsession] a
    payload of one byte. *)
Lemma from_bytes_accepts_wrong_length :
  from_bytes IsPrimeCommand_cls [x05] = Ok (MkIsPrime 5) /\
  from_bytes BoolCommand_cls [] = Ok (MkBool false) /\
  from_bytes WhoCommand_cls [x41; x42; x43] = Ok (MkWho (Some [65; 66; 67])) /\
  from_bytes FinishSessionCommand_cls [x00] = Ok MkFinishSession /\
  length [x05] <> data_length IsPrimeCommand_cls /\
  length (@nil byte) <> data_length BoolCommand_cls /\
  length [x41; x42; x43] <> data_length WhoCommand_cls /\
  length [x00] <> data_length FinishSessionCommand_cls.
Proof.
  repeat split; discriminate.
Qed.

(** ** Execution of commands on the session data *)

(** C7.  Executing a [who] command leaves every field of the session data
    as it was; it returns a new [who] carrying the session's author when
    the command has no author, and returns [None] when it has one. *)
Theorem WhoCommand_call (self_author : option str) (sd : SessionData) :
  fst (__call__ (MkWho self_author) sd) = sd /\
  (str_truthy self_author = false ->
     snd (__call__ (MkWho self_author) sd)
       = Ok (Some (MkWho (Some (author sd))))) /\
  (str_truthy self_author = true ->
     snd (__call__ (MkWho self_author) sd) = Ok None).
Proof.
  cbn [__call__]. unfold WhoCommand.__call__.
  destruct (str_truthy self_author); cbn [negb fst snd];
    repeat split; intros; congruence.
Qed.

Lemma WhoCommand_call_witness :
  snd (__call__ (MkWho None) (mkSessionData [65] true 1 1 2 2))
    = Ok (Some (MkWho (Some [65]))) /\
  snd (__call__ (MkWho (Some [88])) (mkSessionData [65] true 1 1 2 2))
    = Ok None.
Proof.
  split.
  - apply (WhoCommand_call None (mkSessionData [65] true 1 1 2 2)).
    reflexivity.
  - apply (WhoCommand_call (Some [88]) (mkSessionData [65] true 1 1 2 2)).
    reflexivity.
Defined.

(** C10.  The counters of a new session satisfy
    [0 <= primes_cnt <= numbers_cnt]; every execution of a command keeps
    it, and lowers neither counter. *)
Theorem call_keeps_counters :
  (forall AUTHOR,
     0 <= primes_cnt (SessionData_new AUTHOR)
       <= numbers_cnt (SessionData_new AUTHOR)) /\
  (forall c sd,
     0 <= primes_cnt sd <= numbers_cnt sd ->
     0 <= primes_cnt (fst (__call__ c sd)) <= numbers_cnt (fst (__call__ c sd))
     /\ numbers_cnt sd <= numbers_cnt (fst (__call__ c sd))
     /\ primes_cnt sd <= primes_cnt (fst (__call__ c sd))).
Proof.
  split.
  - intros AUTHOR. cbn. lia.
  - intros c sd H. destruct c as [a|v|n| |a b c d]; cbn [__call__].
    + unfold WhoCommand.__call__.
      destruct (negb (str_truthy a)); cbn [fst]; lia.
    + cbn [fst]. lia.
    + unfold IsPrimeCommand.__call__.
      destruct (IsPrimeCommand._is_prime n) as [[|]|e];
        cbn [fst numbers_cnt primes_cnt]; lia.
    + unfold FinishSessionCommand.__call__.
      cbn [fst numbers_cnt primes_cnt]. lia.
    + cbn [fst]. lia.
Qed.

Lemma call_keeps_counters_witness :
  0 <= primes_cnt (fst (__call__ (MkIsPrime 7) (SessionData_new [65])))
    <= numbers_cnt (fst (__call__ (MkIsPrime 7) (SessionData_new [65]))).
Proof.
  apply (proj2 call_keeps_counters (MkIsPrime 7) (SessionData_new [65])).
  apply (proj1 call_keeps_counters [65]).
Defined.

(** C3.  A new session has [session_running] true, both counters 0,
    [min_value = 2^31-1] and [max_value = -2^31]; executing [isprime(2)],
    [isprime(3)], [isprime(4)], [isprime(5)] and then [finishsession] on it
    returns [stats(4, 3, 2, 5)] and leaves [session_running] false. *)
Theorem session_2_3_4_5 (AUTHOR : str) :
  let sd0 := SessionData_new AUTHOR in
  let sd1 := fst (__call__ (MkIsPrime 2) sd0) in
  let sd2 := fst (__call__ (MkIsPrime 3) sd1) in
  let sd3 := fst (__call__ (MkIsPrime 4) sd2) in
  let sd4 := fst (__call__ (MkIsPrime 5) sd3) in
  sd0 = mkSessionData AUTHOR true 0 0 (2 ^ 31 - 1) (- 2 ^ 31) /\
  map (fun n => IsPrimeCommand.__init__ n) [2; 3; 4; 5]
    = [Ok (MkIsPrime 2); Ok (MkIsPrime 3); Ok (MkIsPrime 4); Ok (MkIsPrime 5)] /\
  snd (__call__ (MkIsPrime 2) sd0) = Ok (Some (MkBool true)) /\
  snd (__call__ (MkIsPrime 3) sd1) = Ok (Some (MkBool true)) /\
  snd (__call__ (MkIsPrime 4) sd2) = Ok (Some (MkBool false)) /\
  snd (__call__ (MkIsPrime 5) sd3) = Ok (Some (MkBool true)) /\
  snd (__call__ MkFinishSession sd4) = Ok (Some (MkStats 4 3 2 5)) /\
  fst (__call__ MkFinishSession sd4) = mkSessionData AUTHOR false 4 3 2 5 /\
  session_running (fst (__call__ MkFinishSession sd4)) = false.
Proof.
  vm_compute. repeat split.
Qed.

(** ** The square root of binary64 floats *)

Lemma digits2_pos_size (p : positive) : digits2_pos p = Pos.size p.
Proof.
  induction p as [p IH|p IH|]; cbn [digits2_pos Pos.size]; now rewrite ?IH.
Qed.

(** [Zdigits2 m] is the number of binary digits of [m]. *)
Lemma Zdigits2_bounds (m d : Z) :
  0 < d -> 2 ^ (d - 1) <= m < 2 ^ d -> Zdigits2 m = d.
Proof.
  intros Hd Hm.
  assert (H0 : 0 < 2 ^ (d - 1)) by (apply Z.pow_pos_nonneg; lia).
  destruct m as [|p|p]; try lia.
  cbn [Zdigits2]. rewrite digits2_pos_size.
  assert (Hl : Z.log2 (Zpos p) = d - 1).
  { apply Z.log2_unique; [lia|]. replace (Z.succ (d - 1)) with d by lia. lia. }
  assert (Hs : Zpos (Pos.size p) = Z.log2 (Zpos p) + 1).
  { destruct p; cbn [Z.log2 Pos.size]; lia. }
  lia.
Qed.

Lemma log2_digits (n : Z) :
  0 < n -> 2 ^ Z.log2 n <= n < 2 ^ (Z.log2 n + 1).
Proof.
  intros H. pose proof (Z.log2_spec n H) as Hs.
  replace (Z.log2 n + 1) with (Z.succ (Z.log2 n)) by lia. exact Hs.
Qed.

Lemma Pos_iter_xO (k p : positive) :
  Zpos (Pos.iter xO p k) = Zpos p * 2 ^ Zpos k.
Proof.
  revert p. induction k as [|k IH] using Pos.peano_ind; intros p.
  - cbn [Pos.iter]. lia.
  - rewrite Pos.iter_succ, Pos2Z.inj_xO, IH, Pos2Z.inj_succ.
    rewrite Z.pow_succ_r by lia. lia.
Qed.

(** An integer below [2^53] converts exactly, to a normalised float. *)
Lemma float_of_int_exact (n : Z) :
  0 < n < 2 ^ 52 ->
  exists mx : positive,
    float_of_int n = Ok (S754_finite false mx (Z.log2 n + 1 - 53)) /\
    Zpos mx = n * 2 ^ (53 - (Z.log2 n + 1)) /\
    Zdigits2 (Zpos mx) = 53.
Proof.
  intros Hn. pose proof (log2_digits n ltac:(lia)) as Hd.
  pose proof (Z.log2_nonneg n) as Hl0.
  assert (Hl : Z.log2 n < 52).
  { apply Z.log2_lt_pow2; lia. }
  set (d := Z.log2 n + 1) in *.
  destruct n as [|p|p]; try lia.
  unfold float_of_int, binary_normalize, binary_round, shl_align.
  assert (Ed : Zdigits2 (Zpos p) = d).
  { apply Zdigits2_bounds; [lia|]. replace (d - 1) with (Z.log2 (Zpos p)) by lia.
    exact Hd. }
  cbn [Zdigits2] in Ed. rewrite Ed.
  assert (Ef : fexp prec emax (d + 0) = d - 53).
  { unfold fexp, emin, prec, emax. lia. }
  rewrite Ef.
  destruct (d - 53 - 0) as [|k|k] eqn:Ek; try lia.
  assert (Emx : Zpos (Pos.iter xO p k) = Zpos p * 2 ^ (53 - d)).
  { rewrite Pos_iter_xO. f_equal. f_equal. lia. }
  assert (Hdig : Zdigits2 (Zpos (Pos.iter xO p k)) = 53).
  { apply Zdigits2_bounds; [lia|]. rewrite Emx.
    replace (2 ^ (53 - 1)) with (2 ^ (d - 1) * 2 ^ (53 - d)).
    2:{ rewrite <- Z.pow_add_r by lia. f_equal. lia. }
    replace (2 ^ 53) with (2 ^ d * 2 ^ (53 - d)).
    2:{ rewrite <- Z.pow_add_r by lia. f_equal. lia. }
    assert (0 < 2 ^ (53 - d)) by (apply Z.pow_pos_nonneg; lia).
    replace (Z.log2 (Zpos p)) with (d - 1) in Hd by lia.
    replace (d - 1 + 1) with d in Hd by lia. nia. }
  exists (Pos.iter xO p k). split; [|split; assumption].
  unfold binary_round_aux, shr_fexp.
  rewrite Hdig.
  assert (Ef2 : fexp prec emax (53 + (d - 53)) - (d - 53) = 0).
  { unfold fexp, emin, prec, emax. lia. }
  rewrite Ef2. cbn [shr shr_record_of_loc shr_m loc_of_shr_record
                    round_nearest_even].
  rewrite Hdig, Ef2. cbn [shr shr_m].
  unfold emax, prec.
  destruct (Z.leb_spec (d - 53) (1024 - 53)); [reflexivity|lia].
Qed.

Lemma fexp_normal (e : Z) : -1074 <= e -> fexp prec emax (53 + e) - e = 0.
Proof. unfold fexp, emin, prec, emax. lia. Qed.

Lemma shr_record_of_loc_inv (m : Z) (l : location) :
  shr_m (shr_record_of_loc m l) = m /\
  loc_of_shr_record (shr_record_of_loc m l) = l.
Proof. destruct l as [|[| |]]; split; reflexivity. Qed.

(** Rounding a mantissa of 53 digits to a mantissa of 53 digits: neither
    shift of [binary_round_aux] moves anything. *)
Lemma binary_round_aux_normal (m e : Z) (l : location) :
  Zdigits2 m = 53 ->
  0 < round_nearest_even m l ->
  Zdigits2 (round_nearest_even m l) = 53 ->
  -1074 <= e <= 971 ->
  binary_round_aux prec emax false m e l
    = S754_finite false (Z.to_pos (round_nearest_even m l)) e.
Proof.
  intros Hm Hpos Hr He. unfold binary_round_aux, shr_fexp.
  rewrite Hm, fexp_normal by lia. cbn [shr].
  destruct (shr_record_of_loc_inv m l) as [-> ->].
  rewrite Hr, fexp_normal by lia. cbn [shr shr_record_of_loc shr_m].
  destruct (round_nearest_even m l) as [|p|p]; try lia.
  unfold emax, prec. destruct (Z.leb_spec e (1024 - 53)); [reflexivity|lia].
Qed.

(** The integer square root of [n] scaled by the square of [P]. *)
Section ScaledRoot.

Variables n P : Z.
Hypothesis n_nonneg : 0 <= n.
Hypothesis P_pos : 0 < P.

Let s := Z.sqrt n.
Let q := Z.sqrt (n * (P * P)).

Lemma sqrt_scaled : s * P <= q < (s + 1) * P.
Proof.
  pose proof (Z.sqrt_spec n n_nonneg) as Hs. cbv zeta in Hs.
  assert (HN : 0 <= n * (P * P)) by nia.
  pose proof (Z.sqrt_spec _ HN) as Hq. cbv zeta in Hq.
  pose proof (Z.sqrt_nonneg n) as Hs0.
  pose proof (Z.sqrt_nonneg (n * (P * P))) as Hq0.
  fold s in Hs, Hs0. fold q in Hq, Hq0.
  split.
  - destruct (Z_le_gt_dec (s * P) q) as [H|H]; [exact H|exfalso].
    assert (H1 : Z.succ q * Z.succ q <= (s * P) * (s * P)) by nia.
    assert (H2 : (s * P) * (s * P) = (s * s) * (P * P)) by ring.
    assert (H3 : (s * s) * (P * P) <= n * (P * P)) by nia.
    lia.
  - destruct (Z_lt_ge_dec q ((s + 1) * P)) as [H|H]; [exact H|exfalso].
    assert (H1 : ((s + 1) * P) * ((s + 1) * P) <= q * q) by nia.
    assert (H2 : ((s + 1) * P) * ((s + 1) * P)
                 = (Z.succ s * Z.succ s) * (P * P)) by ring.
    assert (H3 : (n + 1) * (P * P) <= (Z.succ s * Z.succ s) * (P * P)) by nia.
    nia.
Qed.

(** When [P] is large against the root, even the successor of the scaled
    root stays below the next multiple of [P]. *)
Lemma sqrt_scaled_succ : 2 * (s + 1) <= P -> q + 1 < (s + 1) * P.
Proof.
  intros HP.
  pose proof (Z.sqrt_nonneg n) as Hs0.
  pose proof sqrt_scaled as [_ Hlt].
  pose proof (Z.sqrt_spec n n_nonneg) as Hs. cbv zeta in Hs.
  assert (HN : 0 <= n * (P * P)) by nia.
  pose proof (Z.sqrt_spec _ HN) as Hq. cbv zeta in Hq.
  fold s in Hs, Hs0. fold q in Hq.
  destruct (Z_lt_ge_dec (q + 1) ((s + 1) * P)) as [H|H]; [exact H|exfalso].
  assert (Eq : q = (s + 1) * P - 1) by lia.
  assert (H1 : q * q = (Z.succ s * Z.succ s) * (P * P) - 2 * (s + 1) * P + 1).
  { rewrite Eq. ring. }
  assert (H2 : n * (P * P) <= (Z.succ s * Z.succ s - 1) * (P * P)) by nia.
  assert (H3 : P * P + 1 <= 2 * (s + 1) * P) by lia.
  nia.
Qed.

End ScaledRoot.

Lemma div_between (x s P : Z) : 0 < P -> s * P <= x < (s + 1) * P -> x / P = s.
Proof.
  intros HP H. symmetry. apply Z.div_unique with (r := x - s * P); lia.
Qed.

Lemma SFsqrt_core_binary_normal (mx : positive) (d : Z) :
  1 <= d <= 52 -> Zdigits2 (Zpos mx) = 53 ->
  let k := 53 - Z.div2 (d + 1) in
  let N := Zpos mx * 2 ^ (d - 53 + 2 * k) in
  SFsqrt_core_binary prec emax (Zpos mx) (d - 53)
    = (Z.sqrt N, - k,
       if N - Z.sqrt N * Z.sqrt N =? 0 then loc_Exact
       else loc_Inexact
              (if N - Z.sqrt N * Z.sqrt N <=? Z.sqrt N then Lt else Gt)).
Proof.
  intros Hd Hdig k N. unfold SFsqrt_core_binary. rewrite Hdig.
  assert (Ee : Z.min (fexp prec emax (Z.div2 (53 + (d - 53) + 1)))
                 (Z.div2 (d - 53)) = - k).
  { unfold fexp, emin, prec, emax. subst k.
    replace (53 + (d - 53) + 1) with (d + 1) by lia.
    rewrite !Z.div2_div. Z.div_mod_to_equations. lia. }
  rewrite Ee.
  assert (Es : d - 53 - 2 * - k = d - 53 + 2 * k) by lia.
  rewrite Es.
  assert (Hs : 0 < d - 53 + 2 * k).
  { subst k. rewrite Z.div2_div. Z.div_mod_to_equations. lia. }
  destruct (d - 53 + 2 * k) as [|p|p] eqn:Ep; try lia.
  rewrite Z.shiftl_mul_pow2 by lia. fold N.
  pose proof (Z.sqrtrem_spec N ltac:(subst N; lia)) as Hspec.
  pose proof (Z.sqrtrem_sqrt N) as Hfst.
  destruct (Z.sqrtrem N) as [q r]. cbn [fst] in Hfst. subst q.
  destruct Hspec as [Hsum _].
  replace r with (N - Z.sqrt N * Z.sqrt N) by lia. reflexivity.
Qed.

(** [int(math.sqrt(n))] is the integer square root for every positive
    integer below [2^52]: the correctly rounded square root of such an
    integer never reaches the next integer. *)
Lemma int_math_sqrt (n : Z) :
  0 < n < 2 ^ 52 ->
  (x <- math_sqrt n ;; int_of_float x) = Ok (Z.sqrt n).
Proof.
  intros Hn.
  destruct (float_of_int_exact n Hn) as (mx & Hf & Hmx & Hdig).
  pose proof (log2_digits n ltac:(lia)) as Hlog.
  pose proof (Z.log2_nonneg n) as Hl0.
  assert (Hl : Z.log2 n < 52) by (apply Z.log2_lt_pow2; lia).
  set (d := Z.log2 n + 1) in *.
  replace (Z.log2 n) with (d - 1) in Hlog by lia.
  replace (d - 1 + 1) with d in Hlog by lia.
  unfold math_sqrt. rewrite Hf. cbn [bind]. unfold SFsqrt.
  rewrite (SFsqrt_core_binary_normal mx d ltac:(lia) Hdig).
  set (c := Z.div2 (d + 1)). set (k := 53 - c).
  assert (Hc : d <= 2 * c <= d + 1).
  { subst c. rewrite Z.div2_div. Z.div_mod_to_equations. lia. }
  set (P := 2 ^ k).
  assert (HP : 0 < P) by (apply Z.pow_pos_nonneg; lia).
  assert (EN : Zpos mx * 2 ^ (d - 53 + 2 * k) = n * (P * P)).
  { rewrite Hmx. subst P. rewrite <- !Z.pow_add_r, <- Z.mul_assoc by lia.
    rewrite <- Z.pow_add_r by lia. f_equal. f_equal. lia. }
  rewrite EN. set (N := n * (P * P)). set (q := Z.sqrt N).
  pose proof (Z.sqrt_nonneg n) as Hs0.
  (* the root of [n] against the scale *)
  assert (Hsc : Z.sqrt n + 1 <= 2 ^ c).
  { assert (Z.sqrt n < 2 ^ c); [|lia].
    apply Z.sqrt_lt_square; [lia | apply Z.pow_nonneg; lia |].
    rewrite <- Z.pow_add_r by lia.
    assert (2 ^ d <= 2 ^ (c + c)) by (apply Z.pow_le_mono_r; lia). lia. }
  assert (HcP : 2 * 2 ^ c <= P).
  { subst P. rewrite <- Z.pow_succ_r by lia. apply Z.pow_le_mono_r; lia. }
  assert (HcP53 : 2 ^ c * P = 2 ^ 53).
  { subst P. rewrite <- Z.pow_add_r by lia. f_equal. lia. }
  pose proof (sqrt_scaled n P ltac:(lia) HP) as [Hlo Hhi].
  pose proof (sqrt_scaled_succ n P ltac:(lia) HP ltac:(lia)) as Hsucc.
  fold N in Hlo, Hhi, Hsucc. fold q in Hlo, Hhi, Hsucc.
  assert (Hq52 : 2 ^ 52 <= q).
  { subst q. apply Z.sqrt_le_square; [subst N; nia | lia |].
    change (2 ^ 52 * 2 ^ 52) with (2 ^ 104).
    assert (H104 : 2 ^ 104 <= 2 ^ (d - 1) * (P * P)).
    { subst P. rewrite <- !Z.pow_add_r by lia. apply Z.pow_le_mono_r; lia. }
    subst N. nia. }
  assert (Hq53 : q + 1 < 2 ^ 53) by nia.
  assert (Hdq : forall r, q <= r <= q + 1 -> Zdigits2 r = 53).
  { intros r Hr. apply Zdigits2_bounds; [lia|].
    change (2 ^ (53 - 1)) with (2 ^ 52). lia. }
  (* the rounded mantissa is [q] or [q + 1] *)
  set (l := if N - q * q =? 0 then loc_Exact
            else loc_Inexact (if N - q * q <=? q then Lt else Gt)).
  assert (Hround : q <= round_nearest_even q l <= q + 1).
  { subst l. destruct (N - q * q =? 0); [cbn; lia|].
    destruct (N - q * q <=? q); cbn [round_nearest_even]; lia. }
  rewrite binary_round_aux_normal; [| apply Hdq; lia | lia | now apply Hdq
                                    | subst k; lia].
  cbn [int_of_float cond_Zopp]. f_equal.
  rewrite Z2Pos.id by lia.
  rewrite Z.shiftl_div_pow2, Z.opp_involutive by lia. fold P.
  apply div_between; [exact HP|]. lia.
Qed.

(** ** The primality check *)

Lemma In_range (a b d : Z) : In d (range a b) <-> a <= d < b.
Proof.
  unfold range. rewrite in_map_iff. split.
  - intros (i & <- & Hi). apply in_seq in Hi. lia.
  - intros H. exists (Z.to_nat (d - a)). split; [lia|].
    apply in_seq. lia.
Qed.

(** The loop answers [True] exactly when no element of the range divides
    [n]. *)
Lemma for_d_in_true (ds : list Z) (n : Z) :
  IsPrimeCommand.for_d_in ds n = true <->
  forall d, In d ds -> n mod d <> 0.
Proof.
  induction ds as [|d ds IH]; cbn [IsPrimeCommand.for_d_in In].
  - split; [intros _ d Hd; destruct Hd | intros _; reflexivity].
  - destruct (Z.eqb_spec (n mod d) 0) as [E|E].
    + split; [discriminate|]. intros H. exfalso. exact (H d (or_introl eq_refl) E).
    + rewrite IH. split.
      * intros H d' [<-|Hin]; [exact E|now apply H].
      * intros H d' Hin. apply H. now right.
Qed.

Lemma _is_prime_small (n : Z) : n < 2 -> IsPrimeCommand._is_prime n = Ok false.
Proof.
  intros H. unfold IsPrimeCommand._is_prime.
  destruct (Z.ltb_spec n 2); [reflexivity|lia].
Qed.

Lemma _is_prime_loop (n : Z) :
  2 <= n < 2 ^ 52 ->
  IsPrimeCommand._is_prime n
    = Ok (IsPrimeCommand.for_d_in (range 2 (Z.sqrt n + 1)) n).
Proof.
  intros H. unfold IsPrimeCommand._is_prime.
  destruct (Z.ltb_spec n 2); [lia|].
  pose proof (int_math_sqrt n ltac:(lia)) as Hs.
  destruct (math_sqrt n) as [x|e]; [|discriminate].
  cbn [bind] in *. rewrite Hs. reflexivity.
Qed.

(** C1.  On every integer of the range of [isprime], [_is_prime] returns,
    and returns [True] exactly when [n >= 2] and no [d] with
    [2 <= d <= floor(sqrt(n))] divides [n]; so it returns [False] for every
    [n < 2], [True] for 2 and 3 and [False] for 4. *)
Theorem _is_prime_trial_division :
  (forall n,
     IsPrimeCommand.MIN_ALLOWED <= n <= IsPrimeCommand.MAX_ALLOWED ->
     exists b,
       IsPrimeCommand._is_prime n = Ok b /\
       (b = true <->
        2 <= n /\ forall d, 2 <= d <= Z.sqrt n -> ~ (d | n)) /\
       (n < 2 -> b = false)) /\
  IsPrimeCommand._is_prime 2 = Ok true /\
  IsPrimeCommand._is_prime 3 = Ok true /\
  IsPrimeCommand._is_prime 4 = Ok false.
Proof.
  split; [|repeat split; reflexivity].
  unfold IsPrimeCommand.MIN_ALLOWED, IsPrimeCommand.MAX_ALLOWED.
  intros n Hn. destruct (Z_lt_ge_dec n 2) as [Hlt|Hge].
  - exists false. split; [now apply _is_prime_small|]. split; [|reflexivity].
    split; [discriminate|]. intros [H _]. lia.
  - eexists. split; [apply _is_prime_loop; lia|]. split; [|lia].
    rewrite for_d_in_true. split.
    + intros H. split; [lia|]. intros d Hd Hdiv.
      apply (H d); [apply In_range; lia|].
      apply Z.mod_divide; [lia|exact Hdiv].
    + intros [_ H] d Hin Hmod. apply In_range in Hin.
      apply (H d); [lia|]. apply Z.mod_divide; [lia|exact Hmod].
Qed.

Lemma _is_prime_trial_division_witness :
  exists b,
    IsPrimeCommand._is_prime 97 = Ok b /\
    (b = true <-> 2 <= 97 /\ forall d, 2 <= d <= Z.sqrt 97 -> ~ (d | 97)) /\
    (97 < 2 -> b = false).
Proof.
  apply (proj1 _is_prime_trial_division 97).
  unfold IsPrimeCommand.MIN_ALLOWED, IsPrimeCommand.MAX_ALLOWED. lia.
Defined.

(** ** The session driver *)

Lemma _send_command_None (w : Server) :
  CommandServer._send_command None w = (w, Error AttributeError).
Proof. reflexivity. Qed.

(** A round in which a [who] command with an author is received ends with
    [AttributeError]: the command returns [None], which [_send_command]
    cannot send. *)
Lemma handle_one_who_with_author
  (sd : SessionData) (w w1 : Server) (a : option str) :
  CommandServer._receive_message w = (w1, Ok (Some (MkWho a))) ->
  str_truthy a = true ->
  CommandServer.handle_one sd w = (w1, Error AttributeError).
Proof.
  intros Hr Ha. unfold CommandServer.handle_one. rewrite Hr.
  cbn [__call__]. unfold WhoCommand.__call__. rewrite Ha. reflexivity.
Qed.

(** C4 (evaluation at the failing input).  The connection delivers one
    message, [who("X")]: header byte 4, the name [who], and the author [X]
    padded to 128 bytes.  [handle_connection] ends with [AttributeError]
    in its first round, having sent nothing. *)
Theorem handle_connection_who_with_author (AUTHOR : str) (rounds : nat) :
  let message := [x04; x77; x68; x6f; x58] ++ repeat x00 127 in
  CommandServer._receive_message (mkServer [] [message] [])
    = (mkServer [] [] [], Ok (Some (MkWho (Some [88])))) /\
  __call__ (MkWho (Some [88])) (SessionData_new AUTHOR)
    = (SessionData_new AUTHOR, Ok None) /\
  CommandServer.handle_connection AUTHOR (S rounds) [message] []
    = (mkServer [] [] [], Some (Error AttributeError)).
Proof.
  cbv zeta.
  assert (Hr : CommandServer._receive_message
                 (mkServer [] [[x04; x77; x68; x6f; x58] ++ repeat x00 127] [])
               = (mkServer [] [] [], Ok (Some (MkWho (Some [88])))))
    by (vm_compute; reflexivity).
  split; [exact Hr|]. split; [reflexivity|].
  unfold CommandServer.handle_connection.
  cbn [CommandServer.handle_rounds SessionData_new session_running].
  rewrite (handle_one_who_with_author _ _ _ _ Hr eq_refl). reflexivity.
Qed.

Lemma _recv_fill_enough (pend : list bytes) (n : Z) :
  forall buffer buffer' pend',
    CommandServer._recv_fill pend buffer n = (buffer', pend', false) ->
    n <= Z.of_nat (length buffer').
Proof.
  induction pend as [|chunk rest IH]; intros buffer buffer' pend';
    cbn [CommandServer._recv_fill];
    destruct (Z.ltb_spec (Z.of_nat (length buffer)) n) as [Hlt|Hge];
    try (intros [= <- <-]; exact Hge); try discriminate.
  destruct chunk as [|b chunk]; [discriminate|]. apply IH.
Qed.

(** [_recv] returns exactly the number of bytes it is asked for. *)
Lemma _recv_length (n : Z) (w w' : Server) (bs : bytes) :
  0 <= n -> CommandServer._recv n w = (w', Ok bs) ->
  length bs = Z.to_nat n.
Proof.
  intros Hn. unfold CommandServer._recv.
  destruct (CommandServer._recv_fill (pending w) (_buffer w) n)
    as [[buffer pend] broken] eqn:E.
  destruct broken; [discriminate|].
  apply _recv_fill_enough in E. intros [= _ <-].
  unfold slice_to. destruct (Z.leb_spec 0 n); [|lia].
  rewrite length_firstn. lia.
Qed.

(** Every command [_receive_message] returns was decoded by the
    [from_bytes] of a class of the decode table, from a payload of exactly
    that class's [data_length]. *)
Lemma _receive_message_data_length (w w' : Server) (c : BaseCommand) :
  CommandServer._receive_message w = (w', Ok (Some c)) ->
  exists cls data,
    In cls [WhoCommand_cls; IsPrimeCommand_cls; FinishSessionCommand_cls] /\
    length data = data_length cls /\
    from_bytes cls data = Ok c.
Proof.
  unfold CommandServer._receive_message, mbind, ret, raise, lift.
  destruct (CommandServer._recv _ w) as [w1 [header|e]]; [|discriminate].
  destruct (_ =? _); [discriminate|].
  destruct (CommandServer._recv _ w1) as [w2 [name_bytes|e]]; [|discriminate].
  destruct (bytes_decode name_bytes) as [command_name|e]; [|discriminate].
  destruct (dict_get CommandServer.commands_decode_table command_name)
    as [cls|] eqn:Ecls; [|discriminate].
  destruct (CommandServer._recv _ w2) as [w3 [data|e]] eqn:Edata;
    [|discriminate].
  destruct (from_bytes cls data) as [c'|e] eqn:Ec; [|discriminate].
  intros [= _ <-]. exists cls, data. split; [|split].
  - unfold CommandServer.commands_decode_table in Ecls.
    cbn [dict_get] in Ecls.
    repeat match type of Ecls with
      | (if ?b then _ else _) = _ =>
          destruct b; [injection Ecls as <-; cbn; tauto|]
      end.
    discriminate.
  - apply _recv_length in Edata; lia.
  - exact Ec.
Qed.

(** A session over the driver: [who()], [isprime(7)] and [finishsession()]
    arrive in two chunks; three responses are sent, the last one is
    [stats(1, 1, 7, 7)], and the loop ends with the session finished. *)
Example handle_connection_session :
  let who := [x04; x77; x68; x6f] ++ repeat x00 128 in
  let isprime := [x08; x69; x73; x70; x72; x69; x6d; x65; x07; x00; x00; x00] in
  let finishsession :=
    [x0e; x66; x69; x6e; x69; x73; x68; x73; x65; x73; x73; x69; x6f; x6e] in
  let run := CommandServer.handle_connection [65; 66] 5
               [who ++ firstn 5 isprime; skipn 5 isprime ++ finishsession] [] in
  snd run = Some (Ok (mkSessionData [65; 66] false 1 1 7 7)) /\
  sent (fst run) =
    [ [x04; x77; x68; x6f; x41; x42] ++ repeat x00 126;
      [x05; x62; x6f; x6f; x6c; x01];
      [x06; x73; x74; x61; x74; x73;
       x01; x00; x00; x00; x01; x00; x00; x00;
       x07; x00; x00; x00; x07; x00; x00; x00] ].
Proof.
  vm_compute. split; reflexivity.
Qed.

(** When the executed command does return a response that can be encoded,
    the round writes one message, the header followed by the payload, and
    the loop goes on with the updated session data. *)
Lemma handle_one_sends (sd sd' : SessionData) (w w1 : Server)
  (c r : BaseCommand) (payload : bytes) :
  CommandServer._receive_message w = (w1, Ok (Some c)) ->
  __call__ c sd = (sd', Ok (Some r)) ->
  to_bytes r = Ok payload ->
  exists header,
    str_encode (name (class_of r)) UnicodeEncodeError = Ok (tl header) /\
    CommandServer.handle_one sd w
      = (mkServer (_buffer w1) (pending w1) (sent w1 ++ [header ++ payload]),
         Ok sd').
Proof.
  intros Hr Hc Hp. unfold CommandServer.handle_one. rewrite Hr, Hc.
  unfold CommandServer._send_command, mbind, lift, CommandServer._send.
  rewrite Hp.
  destruct r; eexists; (split; [|reflexivity]); reflexivity.
Qed.

(** * Further properties *)

(** ** [int(math.sqrt(n))] and primality *)

(** X1.  For every integer [0 <= n < 2^52], [int(math.sqrt(n))] is the
    exact integer square root of [n]: the rounding of the binary64 square
    root never reaches the next integer.  The bound matters: at
    [n = 2^52 + 2^27] the rounded root is one too large. *)
Theorem int_math_sqrt_exact :
  (forall n, 0 <= n < 2 ^ 52 ->
     (x <- math_sqrt n ;; int_of_float x) = Ok (Z.sqrt n)) /\
  (x <- math_sqrt (2 ^ 52 + 2 ^ 27) ;; int_of_float x)
    = Ok (Z.sqrt (2 ^ 52 + 2 ^ 27) + 1).
Proof.
  split; [|vm_compute; reflexivity].
  intros n Hn. destruct (Z.eq_dec n 0) as [->|Hn0]; [reflexivity|].
  apply int_math_sqrt. lia.
Qed.

Lemma int_math_sqrt_exact_witness :
  (x <- math_sqrt (2 ^ 31 - 1) ;; int_of_float x) = Ok (Z.sqrt (2 ^ 31 - 1)).
Proof.
  apply (proj1 int_math_sqrt_exact (2 ^ 31 - 1)). lia.
Defined.

(** A number with a proper divisor has one that is at most its square
    root. *)
Lemma small_divisor (n d : Z) :
  1 < d < n -> (d | n) -> exists d', 2 <= d' <= Z.sqrt n /\ (d' | n).
Proof.
  intros Hd [e He].
  assert (He1 : 1 < e) by nia.
  pose proof (Z.sqrt_spec n ltac:(lia)) as Hs. cbv zeta in Hs.
  pose proof (Z.sqrt_nonneg n) as Hs0.
  destruct (Z_le_gt_dec d (Z.sqrt n)) as [Hle|Hgt].
  - exists d. split; [lia|]. now exists e.
  - exists e. split; [|exists d; lia].
    split; [lia|]. destruct (Z_le_gt_dec e (Z.sqrt n)); [assumption|nia].
Qed.

Lemma no_small_divisor_prime (n : Z) :
  2 <= n ->
  (forall d, 2 <= d <= Z.sqrt n -> ~ (d | n)) <-> Z.prime n.
Proof.
  intros Hn. unfold Z.prime. split.
  - intros H. split; [lia|]. intros d Hd Hdiv.
    destruct (small_divisor n d Hd Hdiv) as (d' & Hd' & Hdiv').
    exact (H d' Hd' Hdiv').
  - intros [_ H] d Hd. apply H.
    assert (Z.sqrt n < n) by (apply Z.sqrt_lt_lin; lia). lia.
Qed.

Lemma _is_prime_prime (n : Z) :
  n < 2 ^ 52 ->
  exists b, IsPrimeCommand._is_prime n = Ok b /\ (b = true <-> Z.prime n).
Proof.
  intros Hn. destruct (Z_lt_ge_dec n 2) as [Hlt|Hge].
  - exists false. split; [now apply _is_prime_small|].
    split; [discriminate|]. intros Hp. apply Z.prime_ge_2 in Hp. lia.
  - eexists. split; [apply _is_prime_loop; lia|].
    rewrite for_d_in_true, <- no_small_divisor_prime by lia. split.
    + intros H d Hd Hdiv. apply (H d); [apply In_range; lia|].
      apply Z.mod_divide; [lia|exact Hdiv].
    + intros H d Hin Hmod. apply In_range in Hin.
      apply (H d); [lia|]. apply Z.mod_divide; [lia|exact Hmod].
Qed.

(** X2.  [_is_prime] decides primality: for every integer below [2^52]
    (so for every argument [isprime] accepts) it returns, and returns
    [True] exactly for the prime numbers. *)
Theorem _is_prime_decides_prime (n : Z) :
  n < 2 ^ 52 ->
  exists b, IsPrimeCommand._is_prime n = Ok b /\ (b = true <-> Z.prime n).
Proof. exact (_is_prime_prime n). Qed.

Lemma _is_prime_decides_prime_witness :
  exists b, IsPrimeCommand._is_prime (2 ^ 31 - 1) = Ok b /\
            (b = true <-> Z.prime (2 ^ 31 - 1)).
Proof.
  apply (_is_prime_decides_prime (2 ^ 31 - 1)). lia.
Defined.

(** ** Accumulation over a session *)

Lemma fold_min_accum (m n : Z) (ns : list Z) :
  fold_right Z.min (Z.min n m) ns = Z.min n (fold_right Z.min m ns).
Proof. induction ns as [|k ns IH]; cbn [fold_right]; lia. Qed.

Lemma fold_max_accum (m n : Z) (ns : list Z) :
  fold_right Z.max (Z.max n m) ns = Z.max n (fold_right Z.max m ns).
Proof. induction ns as [|k ns IH]; cbn [fold_right]; lia. Qed.

(** Whether [n] counts as a prime of the session. *)
Lemma IsPrimeCommand_call_fields (n : Z) (sd : SessionData) :
  n < 2 ^ 52 ->
  exists b,
    (b = true <-> Z.prime n) /\
    __call__ (MkIsPrime n) sd
      = (mkSessionData (author sd) (session_running sd)
           (numbers_cnt sd + 1)
           (primes_cnt sd + (if b then 1 else 0))
           (Z.min n (min_value sd)) (Z.max n (max_value sd)),
         Ok (Some (MkBool b))).
Proof.
  intros Hn. destruct (_is_prime_prime n Hn) as (b & Hb & Hp).
  exists b. split; [exact Hp|]. cbn [__call__].
  unfold IsPrimeCommand.__call__. rewrite Hb.
  destruct b; cbn [author session_running numbers_cnt primes_cnt
                   min_value max_value]; [reflexivity|].
  rewrite Z.add_0_r. destruct sd; reflexivity.
Qed.

Lemma isprime_session_from (ns : list Z) :
  Forall (fun n => n < 2 ^ 52) ns ->
  exists bs,
    Forall2 (fun n b => b = true <-> Z.prime n) ns bs /\
    forall sd,
      fold_left (fun sd n => fst (__call__ (MkIsPrime n) sd)) ns sd
      = mkSessionData (author sd) (session_running sd)
          (numbers_cnt sd + Z.of_nat (length ns))
          (primes_cnt sd + Z.of_nat (length (filter id bs)))
          (fold_right Z.min (min_value sd) ns)
          (fold_right Z.max (max_value sd) ns).
Proof.
  induction 1 as [|n ns Hn Hns IH].
  - exists []. split; [constructor|]. intros sd. cbn.
    rewrite !Z.add_0_r. destruct sd; reflexivity.
  - destruct IH as (bs & Hbs & IH).
    destruct (_is_prime_prime n Hn) as (b & _ & Hb).
    exists (b :: bs). split; [constructor; assumption|]. intros sd.
    cbn [fold_left]. rewrite IH.
    destruct (IsPrimeCommand_call_fields n sd Hn) as (b' & Hb' & ->).
    assert (b' = b) as ->.
    { destruct b, b'; try reflexivity; intuition congruence. }
    cbn [fst author session_running numbers_cnt primes_cnt min_value
         max_value fold_right filter length].
    rewrite fold_min_accum, fold_max_accum.
    f_equal; [lia|]. unfold id at 2. destruct b; cbn [length]; lia.
Qed.



Lemma fold_min_bounds (lo hi : Z) (ns : list Z) :
  lo <= hi -> Forall (fun n => lo <= n <= hi) ns ->
  lo <= fold_right Z.min hi ns <= hi /\ lo <= fold_right Z.max lo ns <= hi.
Proof.
  intros Hlh. induction 1 as [|n ns Hn Hns IH]; cbn [fold_right]; lia.
Qed.

Lemma length_filter_le {A : Type} (f : A -> bool) (l : list A) :
  (length (filter f l) <= length l)%nat.
Proof.
  induction l as [|a l IH]; cbn [filter length]; [lia|].
  destruct (f a); cbn [length]; lia.
Qed.

(** X4.  As long as fewer than [2^31] numbers of the range were submitted,
    the [stats] command [finishsession] returns can be encoded, and the
    16 bytes decode back to the same command. *)
Theorem finishsession_stats_encodable (AUTHOR : str) (ns : list Z) :
  Forall (fun n =>
            IsPrimeCommand.MIN_ALLOWED <= n <= IsPrimeCommand.MAX_ALLOWED) ns ->
  Z.of_nat (length ns) < 2 ^ 31 ->
  let sd := fold_left (fun sd n => fst (__call__ (MkIsPrime n) sd)) ns
              (SessionData_new AUTHOR) in
  exists r data,
    snd (__call__ MkFinishSession sd) = Ok (Some r) /\
    to_bytes r = Ok data /\
    length data = 16%nat /\
    from_bytes StatsCommand_cls data = Ok r.
Proof.
  intros Hns Hlen.
  assert (H52 : Forall (fun n => n < 2 ^ 52) ns).
  { eapply Forall_impl; [|exact Hns]. cbv beta.
    unfold IsPrimeCommand.MAX_ALLOWED. intros n Hn. lia. }
  destruct (isprime_session_from ns H52) as (bs & Hbs & Hfold).
  cbv zeta. rewrite Hfold.
  cbn [SessionData_new author session_running numbers_cnt primes_cnt
       min_value max_value __call__]. unfold FinishSessionCommand.__call__.
  cbn [snd numbers_cnt primes_cnt min_value max_value].
  pose proof (length_filter_le id bs) as Hf.
  pose proof (Forall2_length Hbs) as Hl.
  pose proof (fold_min_bounds IsPrimeCommand.MIN_ALLOWED
                IsPrimeCommand.MAX_ALLOWED ns ltac:(vm_compute; discriminate)
                Hns) as [Hmin Hmax].
  unfold IsPrimeCommand.MIN_ALLOWED, IsPrimeCommand.MAX_ALLOWED in *.
  edestruct (StatsCommand_roundtrip) as (data & Hto & Hfrom);
    [|eexists; exists data; split; [reflexivity|]; split; [exact Hto|];
      split; [exact (struct_pack_iiii_length _ _ _ _ _ Hto)|exact Hfrom]].
  rewrite !andb_true_iff, !int32_ok_spec. lia.
Qed.

Lemma finishsession_stats_encodable_witness :
  let sd := fold_left (fun sd n => fst (__call__ (MkIsPrime n) sd)) [5; 9]
              (SessionData_new [65]) in
  exists r data,
    snd (__call__ MkFinishSession sd) = Ok (Some r) /\
    to_bytes r = Ok data /\
    length data = 16%nat /\
    from_bytes StatsCommand_cls data = Ok r.
Proof.
  apply (finishsession_stats_encodable [65] [5; 9]).
  - unfold IsPrimeCommand.MIN_ALLOWED, IsPrimeCommand.MAX_ALLOWED.
    repeat constructor; lia.
  - cbn. lia.
Defined.

(** ** Decoding, then encoding *)

Lemma int_from_bytes_mod (bs : bytes) (signed : bool) :
  int_from_bytes bs signed mod 2 ^ bit_length bs = le_unsigned bs.
Proof.
  pose proof (le_unsigned_range bs) as Hu. unfold int_from_bytes.
  destruct (signed && Z.testbit (le_unsigned bs) (bit_length bs - 1)).
  - symmetry. apply Z.mod_unique with (q := -1); lia.
  - apply Z.mod_small. exact Hu.
Qed.

Lemma le_bytes_int_from_bytes (bs : bytes) :
  le_bytes (length bs) (int_from_bytes bs true mod 2 ^ bit_length bs) = bs.
Proof. rewrite int_from_bytes_mod. apply le_bytes_le_unsigned. Qed.

Lemma int32_ok_int_from_bytes (b0 b1 b2 b3 : byte) :
  int32_ok (int_from_bytes [b0; b1; b2; b3] true) = true.
Proof.
  apply int32_ok_spec. apply int_from_bytes_short. cbn. lia.
Qed.

Lemma le_bytes_4_int_from_bytes (b0 b1 b2 b3 : byte) :
  le_bytes 4 (int_from_bytes [b0; b1; b2; b3] true mod 2 ^ 32)
  = [b0; b1; b2; b3].
Proof. exact (le_bytes_int_from_bytes [b0; b1; b2; b3]). Qed.

(** X5.  For [bool], [isprime], [finishsession] and [stats], a payload of
    the declared length that decodes at all is the canonical encoding of
    the command it decodes to: encoding that command gives the payload
    back. *)
Theorem to_bytes_from_bytes (cls : CommandClass) (data : bytes)
  (c : BaseCommand) :
  cls <> WhoCommand_cls ->
  length data = data_length cls ->
  from_bytes cls data = Ok c ->
  to_bytes c = Ok data.
Proof.
  intros Hcls Hlen Hc. destruct cls; [congruence| | | |];
    cbn [from_bytes data_length] in *.
  - (* bool *)
    destruct data as [|b [|? ?]]; try discriminate.
    unfold BoolCommand.from_bytes, int_from_bytes in Hc.
    cbn [andb le_unsigned] in Hc. rewrite Z.mul_0_r, Z.add_0_r in Hc.
    destruct (Z.eqb_spec (Z_of_byte b) 0) as [E0|N0].
    + apply Ok_inj in Hc. subst c. cbn [negb to_bytes].
      rewrite <- (byte_of_Z_of_byte b), E0. reflexivity.
    + destruct (Z.eqb_spec (Z_of_byte b) 1) as [E1|N1]; [|discriminate].
      apply Ok_inj in Hc. subst c. cbn [negb to_bytes].
      rewrite <- (byte_of_Z_of_byte b), E1. reflexivity.
  - (* isprime *)
    destruct data as [|b0 [|b1 [|b2 [|b3 [|? ?]]]]]; try discriminate.
    pose proof (int32_ok_int_from_bytes b0 b1 b2 b3) as Hr.
    apply int32_ok_spec in Hr.
    unfold IsPrimeCommand.from_bytes, IsPrimeCommand.__init__,
      IsPrimeCommand.MIN_ALLOWED, IsPrimeCommand.MAX_ALLOWED in Hc.
    destruct (negb _) in Hc; [discriminate|]. apply Ok_inj in Hc. subst c.
    cbn [to_bytes]. unfold IsPrimeCommand.to_bytes, int_to_bytes,
      IsPrimeCommand.data_length.
    change (2 ^ (8 * Z.of_nat 4)) with (2 ^ 32).
    destruct (Z.leb_spec (- 2 ^ 32) (2 * int_from_bytes [b0; b1; b2; b3] true));
      [|lia].
    destruct (Z.ltb_spec (2 * int_from_bytes [b0; b1; b2; b3] true) (2 ^ 32));
      [|lia].
    cbn [andb]. now rewrite le_bytes_4_int_from_bytes.
  - (* finishsession *)
    destruct data; [|discriminate]. apply Ok_inj in Hc. now subst c.
  - (* stats *)
    do 16 (destruct data as [|? data]; [discriminate|]).
    destruct data; [|discriminate].
    unfold StatsCommand.from_bytes in Hc.
    cbn [struct_unpack_iiii bind] in Hc. apply Ok_inj in Hc. subst c.
    cbn [to_bytes]. unfold StatsCommand.to_bytes, struct_pack_iiii.
    rewrite !int32_ok_int_from_bytes. cbn [andb].
    now rewrite !le_bytes_4_int_from_bytes.
Qed.

Lemma to_bytes_from_bytes_witness :
  to_bytes (MkIsPrime (-2)) = Ok [xfe; xff; xff; xff].
Proof.
  apply (to_bytes_from_bytes IsPrimeCommand_cls [xfe; xff; xff; xff]);
    [discriminate | reflexivity | reflexivity].
Defined.

(** ** Failures of encoding *)

(** X6.  [to_bytes] succeeds exactly on the domain of the codecs.  Outside
    it, [isprime] raises [OverflowError] (argument outside
    [[-2^31, 2^31-1]]), [stats] raises [struct.error] (a field outside that
    range), and [who] raises [ValueError] when the author's UTF-8 encoding
    has more than 128 bytes and [LookupError] when the author cannot be
    encoded at all; [bool] and [finishsession] never fail. *)
Theorem to_bytes_errors (c : BaseCommand) :
  match to_bytes c with
  | Ok _ => in_domain c = true
  | Error e =>
      in_domain c = false /\
      match c with
      | MkIsPrime _ => e = OverflowError
      | MkStats _ _ _ _ => e = struct_error
      | MkWho (Some a) =>
          (utf8_encode a = None /\ e = LookupError) \/
          (exists enc, utf8_encode a = Some enc /\
                       (128 < length enc)%nat /\ e = ValueError)
      | _ => False
      end
  end.
Proof.
  destruct c as [[a|]|v|n| |a b c d]; cbn [to_bytes in_domain].
  - unfold WhoCommand.to_bytes, str_encode.
    destruct a as [|ch s]; [reflexivity|].
    destruct (utf8_encode (ch :: s)) as [enc|]; cbn [bind];
      [|split; [reflexivity|left; split; reflexivity]].
    rewrite length_ljust. change WhoCommand.data_length with 128%nat.
    destruct (Nat.ltb_spec 128 (Nat.max (length enc) 128)) as [Hlt|Hle].
    + split; [apply Nat.leb_gt; lia|]. right. exists enc.
      repeat split; lia.
    + apply Nat.leb_le. lia.
  - reflexivity.
  - destruct v; reflexivity.
  - unfold IsPrimeCommand.to_bytes, int_to_bytes, IsPrimeCommand.data_length,
      IsPrimeCommand.MIN_ALLOWED, IsPrimeCommand.MAX_ALLOWED.
    change (2 ^ (8 * Z.of_nat 4)) with (2 ^ 32).
    destruct (Z.leb_spec (- 2 ^ 32) (2 * n));
      destruct (Z.ltb_spec (2 * n) (2 ^ 32));
      destruct (Z.leb_spec (- 2 ^ 31) n);
      destruct (Z.leb_spec n (2 ^ 31 - 1)); cbn [andb];
      try lia; try reflexivity; split; reflexivity.
  - reflexivity.
  - unfold StatsCommand.to_bytes, struct_pack_iiii.
    destruct (int32_ok a && int32_ok b && int32_ok c && int32_ok d);
      [reflexivity|split; reflexivity].
Qed.

(** ** Reading from the connection *)

Lemma _recv_fill_stream (n : Z) (pend : list bytes) :
  forall buffer,
    match CommandServer._recv_fill pend buffer n with
    | (buffer', pend', broken) =>
        if broken then
          Forall (fun chunk : bytes => chunk <> []) pend ->
          Z.of_nat (length (buffer ++ concat pend)) < n
        else
          buffer' ++ concat pend' = buffer ++ concat pend /\
          n <= Z.of_nat (length buffer') /\
          (Forall (fun chunk : bytes => chunk <> []) pend ->
           Forall (fun chunk : bytes => chunk <> []) pend')
    end.
Proof.
  induction pend as [|chunk rest IH]; intros buffer;
    cbn [CommandServer._recv_fill];
    destruct (Z.ltb_spec (Z.of_nat (length buffer)) n) as [Hlt|Hge].
  - intros _. cbn [concat]. now rewrite app_nil_r.
  - repeat split; [lia|auto].
  - destruct chunk as [|b chunk].
    + intros H. now inversion H.
    + specialize (IH (buffer ++ b :: chunk)).
      destruct (CommandServer._recv_fill rest (buffer ++ b :: chunk) n)
        as [[buffer' pend'] broken].
      cbn [concat]. rewrite app_assoc. destruct broken.
      * intros H. apply IH. now inversion H.
      * destruct IH as (E & Hn & Hf). repeat split; [exact E|exact Hn|].
        intros H. apply Hf. now inversion H.
  - repeat split; [lia|auto].
Qed.

Lemma firstn_app_le {A : Type} (k : nat) (l1 l2 : list A) :
  (k <= length l1)%nat -> firstn k (l1 ++ l2) = firstn k l1.
Proof.
  intros H. rewrite firstn_app.
  replace (k - length l1)%nat with 0%nat by lia. cbn. apply app_nil_r.
Qed.

Lemma skipn_app_le {A : Type} (k : nat) (l1 l2 : list A) :
  (k <= length l1)%nat -> skipn k (l1 ++ l2) = skipn k l1 ++ l2.
Proof.
  intros H. rewrite skipn_app.
  replace (k - length l1)%nat with 0%nat by lia. reflexivity.
Qed.

(** [_recv] takes the next [n] bytes of the stream, however the connection
    cuts it into chunks. *)
Lemma _recv_stream (n : Z) (w : Server) :
  0 <= n -> n <= Z.of_nat (length (stream w)) -> connected w ->
  exists w',
    CommandServer._recv n w = (w', Ok (firstn (Z.to_nat n) (stream w))) /\
    stream w' = skipn (Z.to_nat n) (stream w) /\
    connected w' /\ sent w' = sent w.
Proof.
  intros Hn Hlen Hc. unfold CommandServer._recv, stream, connected in *.
  pose proof (_recv_fill_stream n (pending w) (_buffer w)) as H.
  destruct (CommandServer._recv_fill (pending w) (_buffer w) n)
    as [[buffer pend] broken].
  destruct broken; [specialize (H Hc); lia|].
  destruct H as (E & Hb & Hf). unfold slice_to, slice_from.
  destruct (Z.leb_spec 0 n); [|lia]. rewrite <- E.
  rewrite firstn_app_le by lia. eexists. split; [reflexivity|].
  cbn [_buffer pending sent]. rewrite skipn_app_le by lia. auto.
Qed.

Lemma _recv_closed (n : Z) (w : Server) :
  Z.of_nat (length (stream w)) < n ->
  exists w',
    CommandServer._recv n w = (w', Error ConnectionBrokenError) /\
    sent w' = sent w.
Proof.
  intros Hlen. unfold CommandServer._recv, stream in *.
  pose proof (_recv_fill_stream n (pending w) (_buffer w)) as H.
  destruct (CommandServer._recv_fill (pending w) (_buffer w) n)
    as [[buffer pend] broken].
  destruct broken; [eexists; split; reflexivity|].
  destruct H as (E & Hb & _). rewrite <- E, length_app in Hlen. lia.
Qed.

(** X7.  Reading is independent of how the connection delivers the bytes:
    as long as the peer has not closed, [_recv(n)] returns exactly the
    next [n] bytes of the stream and leaves the rest to be read, when the
    stream has that many; when the stream ends before, it raises
    [ConnectionBrokenError].  It sends nothing. *)
Theorem _recv_reads_stream (n : Z) (w : Server) :
  0 <= n -> connected w ->
  exists w',
    sent w' = sent w /\
    if n <=? Z.of_nat (length (stream w)) then
      CommandServer._recv n w = (w', Ok (firstn (Z.to_nat n) (stream w))) /\
      stream w' = skipn (Z.to_nat n) (stream w) /\
      connected w'
    else
      CommandServer._recv n w = (w', Error ConnectionBrokenError).
Proof.
  intros Hn Hc. destruct (Z.leb_spec n (Z.of_nat (length (stream w)))) as [H|H].
  - destruct (_recv_stream n w Hn H Hc) as (w' & Hr & Hs & Hc' & Hsent).
    exists w'. auto.
  - destruct (_recv_closed n w H) as (w' & Hr & Hsent). exists w'. auto.
Qed.

Lemma _recv_reads_stream_witness :
  exists w',
    sent w' = [] /\
    CommandServer._recv 3 (mkServer [x01] [[x02]; [x03; x04]] [])
      = (w', Ok [x01; x02; x03]) /\
    stream w' = [x04] /\ connected w'.
Proof.
  destruct (_recv_reads_stream 3 (mkServer [x01] [[x02]; [x03; x04]] []))
    as (w' & Hs & H); [lia | repeat constructor; discriminate |].
  exists w'. split; [exact Hs|]. exact H.
Defined.

(** ** Framing *)

Lemma int_from_bytes_one (h : byte) : int_from_bytes [h] false = Z_of_byte h.
Proof. unfold int_from_bytes. cbn [andb le_unsigned]. lia. Qed.

(** The body both [_receive_message] methods share, for any decode
    table. *)
Section Framing.

Variable table : list (str * CommandClass).

Let receive : method (option BaseCommand) :=
  header <~ CommandServer._recv (Z.of_nat 1) ;;
  let header_length := int_from_bytes header false in
  if header_length =? Z.of_nat 1 then ret None
  else
    name_bytes <~ CommandServer._recv (header_length - Z.of_nat 1) ;;
    match bytes_decode name_bytes with
    | Error _ => raise UnrecognizedCommandError
    | Ok command_name =>
        match dict_get table command_name with
        | None => raise UnrecognizedCommandError
        | Some command_type =>
            command_data <~ CommandServer._recv (Z.of_nat (data_length command_type)) ;;
            command <~ lift (from_bytes command_type command_data) ;;
            ret (Some command)
        end
    end.

Variable w : Server.
Hypothesis w_connected : connected w.

Lemma receive_empty (rest : bytes) :
  stream w = x01 :: rest ->
  exists w',
    receive w = (w', Ok None) /\
    stream w' = rest /\ connected w' /\ sent w' = sent w.
Proof.
  intros Hs. unfold receive, mbind.
  destruct (_recv_stream (Z.of_nat 1) w) as (w1 & -> & Hs1 & Hc1 & Hsent1);
    [lia | rewrite Hs; cbn [length]; lia | exact w_connected |].
  rewrite Hs in *. change (Z.to_nat (Z.of_nat 1)) with 1%nat in *.
  change (Z.of_nat 1) with 1 in *. cbn [firstn skipn] in *.
  exists w1. now repeat split.
Qed.

Lemma receive_unknown (h : byte) (nm rest : bytes) :
  stream w = h :: nm ++ rest ->
  Z_of_byte h = 1 + Z.of_nat (length nm) -> nm <> [] ->
  match bytes_decode nm with
  | Ok command_name => dict_get table command_name = None
  | Error _ => True
  end ->
  exists w',
    receive w = (w', Error UnrecognizedCommandError) /\
    stream w' = rest /\ connected w' /\ sent w' = sent w.
Proof.
  intros Hs Hh Hnm Hdec. unfold receive, mbind.
  destruct (_recv_stream (Z.of_nat 1) w) as (w1 & -> & Hs1 & Hc1 & Hsent1);
    [lia | rewrite Hs; cbn [length]; lia | exact w_connected |].
  rewrite Hs in *. change (Z.to_nat (Z.of_nat 1)) with 1%nat in *.
  change (Z.of_nat 1) with 1 in *. cbn [firstn skipn] in *.
  rewrite int_from_bytes_one, Hh.
  assert (Hl : (0 < length nm)%nat) by (destruct nm; [congruence|cbn; lia]).
  destruct (Z.eqb_spec (1 + Z.of_nat (length nm)) 1) as [E|_]; [lia|].
  replace (1 + Z.of_nat (length nm) - 1) with (Z.of_nat (length nm)) by lia.
  destruct (_recv_stream (Z.of_nat (length nm)) w1)
    as (w2 & -> & Hs2 & Hc2 & Hsent2);
    [lia | rewrite Hs1, length_app; lia | exact Hc1 |].
  rewrite Hs1, Nat2Z.id in *.
  rewrite firstn_app_le, firstn_all by lia.
  rewrite skipn_app_le, skipn_all in Hs2 by lia. cbn [app] in Hs2.
  exists w2.
  destruct (bytes_decode nm) as [command_name|e];
    [rewrite Hdec|]; (split; [reflexivity|]); repeat split;
    auto; congruence.
Qed.

Lemma receive_frame (h : byte) (nm payload rest : bytes)
  (command_name : str) (cls : CommandClass) :
  stream w = h :: nm ++ payload ++ rest ->
  Z_of_byte h = 1 + Z.of_nat (length nm) -> nm <> [] ->
  bytes_decode nm = Ok command_name ->
  dict_get table command_name = Some cls ->
  length payload = data_length cls ->
  exists w',
    receive w = (w', match from_bytes cls payload with
                     | Ok c => Ok (Some c)
                     | Error e => Error e
                     end) /\
    stream w' = rest /\ connected w' /\ sent w' = sent w.
Proof.
  intros Hs Hh Hnm Hdec Hget Hlen. unfold receive, mbind.
  destruct (_recv_stream (Z.of_nat 1) w) as (w1 & -> & Hs1 & Hc1 & Hsent1);
    [lia | rewrite Hs; cbn [length]; lia | exact w_connected |].
  rewrite Hs in *. change (Z.to_nat (Z.of_nat 1)) with 1%nat in *.
  change (Z.of_nat 1) with 1 in *. cbn [firstn skipn] in *.
  rewrite int_from_bytes_one, Hh.
  assert (Hl : (0 < length nm)%nat) by (destruct nm; [congruence|cbn; lia]).
  destruct (Z.eqb_spec (1 + Z.of_nat (length nm)) 1) as [E|_]; [lia|].
  replace (1 + Z.of_nat (length nm) - 1) with (Z.of_nat (length nm)) by lia.
  destruct (_recv_stream (Z.of_nat (length nm)) w1)
    as (w2 & -> & Hs2 & Hc2 & Hsent2);
    [lia | rewrite Hs1, length_app; lia | exact Hc1 |].
  rewrite Hs1, Nat2Z.id in *.
  rewrite firstn_app_le, firstn_all by lia.
  rewrite skipn_app_le, skipn_all in Hs2 by lia. cbn [app] in Hs2.
  rewrite Hdec, Hget.
  destruct (_recv_stream (Z.of_nat (data_length cls)) w2)
    as (w3 & -> & Hs3 & Hc3 & Hsent3);
    [lia | rewrite Hs2, length_app; lia | exact Hc2 |].
  rewrite Hs2, Nat2Z.id, <- Hlen in *.
  rewrite firstn_app_le, firstn_all by lia.
  rewrite skipn_app_le, skipn_all in Hs3 by lia. cbn [app] in Hs3.
  exists w3. unfold lift, ret.
  destruct (from_bytes cls payload); (split; [reflexivity|]);
    repeat split; auto; congruence.
Qed.

End Framing.

(** ** Messages *)

(** The encoded name of a command class. *)
Lemma name_encoded (cls : CommandClass) :
  exists nm,
    utf8_encode (name cls) = Some nm /\ bytes_decode nm = Ok (name cls) /\
    nm <> [] /\ (length nm < 255)%nat.
Proof.
  destruct cls; eexists; (split; [reflexivity|]);
    (split; [reflexivity|]); (split; [discriminate|cbn; lia]).
Qed.

Lemma header_byte (k : nat) :
  (k < 255)%nat ->
  exists h,
    int_to_bytes (Z.of_nat (1 + k)) 1 false = Ok [h] /\
    Z_of_byte h = 1 + Z.of_nat k.
Proof.
  intros Hk. unfold int_to_bytes. change (2 ^ (8 * Z.of_nat 1)) with 256.
  destruct (Z.leb_spec 0 (Z.of_nat (1 + k))); [|lia].
  destruct (Z.ltb_spec (Z.of_nat (1 + k)) 256); [|lia].
  cbn [andb le_bytes]. eexists. split; [reflexivity|].
  rewrite Z_of_byte_of_Z, Z.mod_mod, Z.mod_small by lia. lia.
Qed.

(** What [_send_command] does, on the client and on the server: it sends
    one message, made of the header byte, the name and the payload, or it
    raises what [to_bytes] raises. *)
Lemma _send_command_message (c : BaseCommand) :
  exists h nm,
    utf8_encode (name (class_of c)) = Some nm /\
    Z_of_byte h = 1 + Z.of_nat (length nm) /\
    forall w,
      CommandClient._send_command c w
        = match to_bytes c with
          | Ok payload =>
              (mkServer (_buffer w) (pending w)
                 (sent w ++ [h :: nm ++ payload]), Ok tt)
          | Error e => (w, Error e)
          end /\
      CommandServer._send_command (Some c) w
        = CommandClient._send_command c w.
Proof.
  destruct (name_encoded (class_of c)) as (nm & Hnm & _ & _ & Hlen).
  destruct (header_byte (length nm) Hlen) as (h & Hh & Hv).
  exists h, nm. split; [exact Hnm|]. split; [exact Hv|]. intros w.
  unfold CommandClient._send_command, CommandServer._send_command, str_encode.
  rewrite Hnm. unfold CommandClient.MESSAGE_HEADER_SIZE_LENGTH,
    CommandServer.MESSAGE_HEADER_SIZE_LENGTH, mbind, lift.
  rewrite Hh. split; [|reflexivity].
  destruct (to_bytes c); reflexivity.
Qed.

Lemma message_of_inv (c : BaseCommand) (m : bytes) :
  message_of c = Some m ->
  exists h nm payload,
    m = h :: nm ++ payload /\
    Z_of_byte h = 1 + Z.of_nat (length nm) /\
    utf8_encode (name (class_of c)) = Some nm /\
    to_bytes c = Ok payload.
Proof.
  destruct (_send_command_message c) as (h & nm & Hnm & Hh & Hsend).
  unfold message_of. rewrite (proj1 (Hsend _)).
  destruct (to_bytes c) as [payload|e]; [|discriminate].
  cbn [sent app concat]. rewrite app_nil_r. intros H.
  apply Some_inj in H. subst m. now exists h, nm, payload.
Qed.

Lemma message_of_sent (c : BaseCommand) (m : bytes) (w : Server) :
  message_of c = Some m ->
  CommandClient._send_command c w
    = (mkServer (_buffer w) (pending w) (sent w ++ [m]), Ok tt) /\
  CommandServer._send_command (Some c) w
    = (mkServer (_buffer w) (pending w) (sent w ++ [m]), Ok tt).
Proof.
  destruct (_send_command_message c) as (h & nm & Hnm & Hh & Hsend).
  unfold message_of. rewrite (proj2 (Hsend w)), (proj1 (Hsend w)).
  rewrite (proj1 (Hsend _)).
  destruct (to_bytes c) as [payload|e]; [|discriminate].
  cbn [sent app concat]. rewrite app_nil_r. intros H.
  apply Some_inj in H. subst m. split; reflexivity.
Qed.

Lemma in_domain_to_bytes (c : BaseCommand) :
  in_domain c = true -> exists payload, to_bytes c = Ok payload.
Proof.
  intros Hd. destruct c as [[a|]|v|n| |a b c d]; cbn [in_domain to_bytes] in *.
  - destruct (utf8_encode a) as [e|] eqn:He; [|discriminate].
    apply Nat.leb_le in Hd. unfold WhoCommand.to_bytes, str_encode.
    destruct a as [|c s]; [eexists; reflexivity|]. rewrite He. cbn [bind].
    destruct (Nat.ltb_spec WhoCommand.data_length
                (length (ljust e WhoCommand.data_length x00))) as [Hlt|_].
    { rewrite length_ljust in Hlt. lia. }
    eexists; reflexivity.
  - eexists; reflexivity.
  - destruct v; eexists; reflexivity.
  - apply andb_true_iff in Hd. rewrite !Z.leb_le in Hd.
    eexists. apply (IsPrimeCommand_roundtrip n). lia.
  - eexists; reflexivity.
  - destruct (StatsCommand_roundtrip a b c d Hd) as (bs & H & _).
    now exists bs.
Qed.

Lemma message_of_in_domain (c : BaseCommand) :
  in_domain c = true -> exists m, message_of c = Some m.
Proof.
  intros Hd. destruct (_send_command_message c) as (h & nm & Hnm & Hh & Hsend).
  unfold message_of. rewrite (proj1 (Hsend _)).
  destruct (in_domain_to_bytes c Hd) as [payload ->]. eexists; reflexivity.
Qed.

(** Decoding the payload [to_bytes] produced gives the command back, with
    the exception of the NUL characters at the ends of a [who] author. *)
Lemma codec_roundtrip (c : BaseCommand) (payload : bytes) :
  to_bytes c = Ok payload ->
  match c with
  | MkWho (Some a) => hd 0 a <> 0 /\ last a 0 <> 0
  | _ => True
  end ->
  from_bytes (class_of c) payload = Ok c.
Proof.
  intros Hto Hends.
  destruct c as [[a|]|v|n| |a b c d]; cbn [to_bytes class_of from_bytes] in *.
  - destruct Hends as [Hhd Hlast].
    destruct a as [|ch s]; [now elim Hhd|].
    unfold WhoCommand.to_bytes, str_encode in Hto.
    destruct (utf8_encode (ch :: s)) as [e|] eqn:He; [|discriminate].
    cbn [bind] in Hto. destruct (_ <? _)%nat; [discriminate|].
    apply Ok_inj in Hto. subst payload. unfold ljust.
    exact (WhoCommand_from_bytes_padded _ _ _ He Hhd Hlast).
  - apply Ok_inj in Hto. subst payload. exact WhoCommand_roundtrip_None.
  - destruct v; apply Ok_inj in Hto; subst payload; reflexivity.
  - unfold IsPrimeCommand.to_bytes, int_to_bytes, IsPrimeCommand.data_length
      in Hto. change (2 ^ (8 * Z.of_nat 4)) with (2 ^ 32) in Hto.
    destruct (Z.leb_spec (- 2 ^ 32) (2 * n)); [|discriminate].
    destruct (Z.ltb_spec (2 * n) (2 ^ 32)); [|discriminate].
    apply Ok_inj in Hto. subst payload.
    apply (IsPrimeCommand_roundtrip n).
    unfold IsPrimeCommand.MIN_ALLOWED, IsPrimeCommand.MAX_ALLOWED. lia.
  - apply Ok_inj in Hto. now subst payload.
  - unfold StatsCommand.to_bytes, struct_pack_iiii in Hto.
    destruct (int32_ok a && int32_ok b && int32_ok c && int32_ok d) eqn:Hd;
      [|discriminate].
    destruct (StatsCommand_roundtrip a b c d Hd) as (bs & H1 & H2).
    unfold StatsCommand.to_bytes, struct_pack_iiii in H1. rewrite Hd in H1.
    congruence.
Qed.

(** ** Receiving messages *)

Lemma server_receive_empty (w : Server) (rest : bytes) :
  connected w -> stream w = x01 :: rest ->
  exists w',
    CommandServer._receive_message w = (w', Ok None) /\
    stream w' = rest /\ connected w' /\ sent w' = sent w.
Proof.
  intros Hc. exact (receive_empty CommandServer.commands_decode_table w Hc rest).
Qed.

Lemma server_receive_unknown (w : Server) (h : byte) (nm rest : bytes) :
  connected w ->
  stream w = h :: nm ++ rest ->
  Z_of_byte h = 1 + Z.of_nat (length nm) -> nm <> [] ->
  match bytes_decode nm with
  | Ok command_name =>
      dict_get CommandServer.commands_decode_table command_name = None
  | Error _ => True
  end ->
  exists w',
    CommandServer._receive_message w = (w', Error UnrecognizedCommandError) /\
    stream w' = rest /\ connected w' /\ sent w' = sent w.
Proof.
  intros Hc.
  exact (receive_unknown CommandServer.commands_decode_table w Hc h nm rest).
Qed.

(** Receiving, from a stream that starts with the message of a command of
    the table, returns the command and leaves the rest of the stream. *)
Lemma receive_message_of (table : list (str * CommandClass))
  (recv : method (option BaseCommand)) (c : BaseCommand) (m rest : bytes)
  (w : Server) :
  (forall w h nm payload rest command_name cls,
     connected w ->
     stream w = h :: nm ++ payload ++ rest ->
     Z_of_byte h = 1 + Z.of_nat (length nm) -> nm <> [] ->
     bytes_decode nm = Ok command_name ->
     dict_get table command_name = Some cls ->
     length payload = data_length cls ->
     exists w',
       recv w = (w', match from_bytes cls payload with
                     | Ok c => Ok (Some c)
                     | Error e => Error e
                     end) /\
       stream w' = rest /\ connected w' /\ sent w' = sent w) ->
  dict_get table (name (class_of c)) = Some (class_of c) ->
  message_of c = Some m ->
  match c with
  | MkWho (Some a) => hd 0 a <> 0 /\ last a 0 <> 0
  | _ => True
  end ->
  connected w -> stream w = m ++ rest ->
  exists w',
    recv w = (w', Ok (Some c)) /\
    stream w' = rest /\ connected w' /\ sent w' = sent w.
Proof.
  intros Hframe Hget Hm Hends Hc Hs.
  destruct (message_of_inv c m Hm) as (h & nm & payload & -> & Hh & Hnm & Hto).
  destruct (name_encoded (class_of c)) as (nm' & Hnm' & Hdec & Hne & _).
  assert (nm' = nm) as -> by congruence.
  cbn [app] in Hs. rewrite <- app_assoc in Hs.
  destruct (Hframe w h nm payload rest _ _ Hc Hs Hh Hne Hdec Hget
              (to_bytes_length c payload Hto)) as (w' & Hr & H').
  exists w'. split; [|exact H'].
  now rewrite Hr, (codec_roundtrip c payload Hto Hends).
Qed.

Lemma server_receives (c : BaseCommand) (m rest : bytes) (w : Server) :
  In (class_of c) [WhoCommand_cls; IsPrimeCommand_cls; FinishSessionCommand_cls] ->
  message_of c = Some m ->
  match c with
  | MkWho (Some a) => hd 0 a <> 0 /\ last a 0 <> 0
  | _ => True
  end ->
  connected w -> stream w = m ++ rest ->
  exists w',
    CommandServer._receive_message w = (w', Ok (Some c)) /\
    stream w' = rest /\ connected w' /\ sent w' = sent w.
Proof.
  intros Hin. apply (receive_message_of CommandServer.commands_decode_table).
  - intros w0 h0 nm0 p0 r0 cn0 cls0 Hc0.
    exact (receive_frame CommandServer.commands_decode_table w0 Hc0 h0 nm0 p0 r0 cn0 cls0).
  - destruct (class_of c); cbn in Hin; try reflexivity; exfalso;
      intuition discriminate.
Qed.

Lemma client_receives (c : BaseCommand) (m rest : bytes) (w : Server) :
  In (class_of c) [WhoCommand_cls; BoolCommand_cls; StatsCommand_cls] ->
  message_of c = Some m ->
  match c with
  | MkWho (Some a) => hd 0 a <> 0 /\ last a 0 <> 0
  | _ => True
  end ->
  connected w -> stream w = m ++ rest ->
  exists w',
    CommandClient._receive_message w = (w', Ok (Some c)) /\
    stream w' = rest /\ connected w' /\ sent w' = sent w.
Proof.
  intros Hin. apply (receive_message_of CommandClient.commands_decode_table).
  - intros w0 h0 nm0 p0 r0 cn0 cls0 Hc0.
    exact (receive_frame CommandClient.commands_decode_table w0 Hc0 h0 nm0 p0 r0 cn0 cls0).
  - destruct (class_of c); cbn in Hin; try reflexivity; exfalso;
      intuition discriminate.
Qed.

(** X8.  An empty message (a header byte 1 alone) is skipped: the round
    consumes that one byte, sends nothing, and leaves the session data as
    it was. *)
Theorem handle_one_empty_message (sd : SessionData) (w : Server)
  (rest : bytes) :
  connected w -> stream w = x01 :: rest ->
  exists w',
    CommandServer.handle_one sd w = (w', Ok sd) /\
    stream w' = rest /\ connected w' /\ sent w' = sent w.
Proof.
  intros Hc Hs.
  destruct (server_receive_empty w rest Hc Hs) as (w' & Hr & H').
  exists w'. split; [|exact H'].
  unfold CommandServer.handle_one. now rewrite Hr.
Qed.

Lemma handle_one_empty_message_witness :
  exists w',
    CommandServer.handle_one (SessionData_new [65])
      (mkServer [] [[x01; x01]] []) = (w', Ok (SessionData_new [65])) /\
    stream w' = [x01] /\ connected w' /\ sent w' = [].
Proof.
  apply (handle_one_empty_message (SessionData_new [65])
           (mkServer [] [[x01; x01]] []) [x01]);
    [repeat constructor; discriminate | reflexivity].
Defined.

(** X9.  A message whose name is not valid UTF-8, or is not a name of the
    server's decode table (as [bool] and [stats] are not), is skipped: the
    round consumes the header byte and the name, sends nothing, leaves the
    session data as it was, and goes on reading right after the name. *)
Theorem handle_one_unrecognized (sd : SessionData) (w : Server)
  (h : byte) (nm rest : bytes) :
  connected w ->
  stream w = h :: nm ++ rest ->
  Z_of_byte h = 1 + Z.of_nat (length nm) -> nm <> [] ->
  match bytes_decode nm with
  | Ok command_name =>
      dict_get CommandServer.commands_decode_table command_name = None
  | Error _ => True
  end ->
  exists w',
    CommandServer.handle_one sd w = (w', Ok sd) /\
    stream w' = rest /\ connected w' /\ sent w' = sent w.
Proof.
  intros Hc Hs Hh Hne Hdec.
  destruct (server_receive_unknown w h nm rest Hc Hs Hh Hne Hdec)
    as (w' & Hr & H').
  exists w'. split; [|exact H'].
  unfold CommandServer.handle_one. now rewrite Hr.
Qed.

Lemma handle_one_unrecognized_witness :
  exists w',
    CommandServer.handle_one (SessionData_new [65])
      (mkServer [] [[x05; x62; x6f; x6f; x6c; x01]] [])
      = (w', Ok (SessionData_new [65])) /\
    stream w' = [x01] /\ connected w' /\ sent w' = [].
Proof.
  apply (handle_one_unrecognized (SessionData_new [65])
           (mkServer [] [[x05; x62; x6f; x6f; x6c; x01]] [])
           x05 [x62; x6f; x6f; x6c] [x01]);
    [repeat constructor; discriminate | reflexivity | reflexivity
    | discriminate | reflexivity].
Defined.

Lemma _send_command_inv (c : BaseCommand) (cl cl' : Server) :
  CommandClient._send_command c cl = (cl', Ok tt) ->
  exists m,
    message_of c = Some m /\
    cl' = mkServer (_buffer cl) (pending cl) (sent cl ++ [m]).
Proof.
  destruct (_send_command_message c) as (h & nm & Hnm & Hh & Hsend).
  unfold message_of. rewrite (proj1 (Hsend cl)), (proj1 (Hsend _)).
  destruct (to_bytes c) as [payload|e]; [|discriminate].
  intros H. exists (h :: nm ++ payload). split.
  - cbn [sent app concat]. now rewrite app_nil_r.
  - now inversion H.
Qed.

(** X10.  The server reads back what the client sends: when
    [_send_command] has sent a [who], [isprime] or [finishsession] command
    (a [who] author neither starting nor ending with U+0000) and the
    server's stream starts with that message, [_receive_message] returns
    the command and consumes exactly the message, however the connection
    cuts the stream into chunks. *)
Theorem server_receives_message (c : BaseCommand) (cl cl' w : Server)
  (rest : bytes) :
  In (class_of c) [WhoCommand_cls; IsPrimeCommand_cls; FinishSessionCommand_cls] ->
  match c with
  | MkWho (Some a) => hd 0 a <> 0 /\ last a 0 <> 0
  | _ => True
  end ->
  CommandClient._send_command c cl = (cl', Ok tt) ->
  connected w ->
  stream w = last (sent cl') [] ++ rest ->
  exists w',
    CommandServer._receive_message w = (w', Ok (Some c)) /\
    stream w' = rest /\ connected w' /\ sent w' = sent w.
Proof.
  intros Hin Hends Hsend Hc Hs.
  destruct (_send_command_inv c cl cl' Hsend) as (m & Hm & ->).
  cbn [sent] in Hs. rewrite last_last in Hs.
  exact (server_receives c m rest w Hin Hm Hends Hc Hs).
Qed.

Lemma server_receives_message_witness :
  exists w',
    CommandServer._receive_message
      (mkServer [x08; x69] [[x73; x70; x72; x69; x6d; x65; x07];
                            [x00; x00; x00; x01]] [])
      = (w', Ok (Some (MkIsPrime 7))) /\
    stream w' = [x01] /\ connected w' /\ sent w' = [].
Proof.
  apply (server_receives_message (MkIsPrime 7) (mkServer [] [] [])
           (mkServer [] []
              [[x08; x69; x73; x70; x72; x69; x6d; x65; x07; x00; x00; x00]]));
    [cbn; tauto | exact I | reflexivity
    | repeat constructor; discriminate | reflexivity].
Defined.

(** ** A round of the server *)

Lemma stream_sent (w : Server) (m : bytes) :
  stream (mkServer (_buffer w) (pending w) (sent w ++ [m])) = stream w /\
  (connected w -> connected (mkServer (_buffer w) (pending w) (sent w ++ [m]))).
Proof. split; [reflexivity|auto]. Qed.

(** A round that receives the message of a command whose execution
    returns a response sends the message of the response. *)
Lemma handle_one_exchange (sd sd' : SessionData) (w : Server)
  (c r : BaseCommand) (m mr rest : bytes) :
  In (class_of c) [WhoCommand_cls; IsPrimeCommand_cls; FinishSessionCommand_cls] ->
  message_of c = Some m ->
  match c with
  | MkWho (Some a) => hd 0 a <> 0 /\ last a 0 <> 0
  | _ => True
  end ->
  connected w -> stream w = m ++ rest ->
  __call__ c sd = (sd', Ok (Some r)) ->
  message_of r = Some mr ->
  exists w',
    CommandServer.handle_one sd w = (w', Ok sd') /\
    stream w' = rest /\ connected w' /\ sent w' = sent w ++ [mr].
Proof.
  intros Hin Hm Hends Hc Hs Hcall Hmr.
  destruct (server_receives c m rest w Hin Hm Hends Hc Hs)
    as (w1 & Hr & Hs1 & Hc1 & Hsent1).
  unfold CommandServer.handle_one. rewrite Hr, Hcall.
  rewrite (proj2 (message_of_sent r mr w1 Hmr)).
  eexists. split; [reflexivity|]. rewrite <- Hsent1.
  repeat split; auto.
Qed.

(** The responses are of the classes the client decodes. *)
Lemma response_class (c r : BaseCommand) (sd sd' : SessionData) :
  __call__ c sd = (sd', Ok (Some r)) ->
  In (class_of r) [WhoCommand_cls; BoolCommand_cls; StatsCommand_cls].
Proof.
  destruct c as [a|v|n| |a b c d]; cbn [__call__].
  - unfold WhoCommand.__call__. destruct (negb (str_truthy a));
      intros [= _ <-]; cbn; tauto.
  - discriminate.
  - unfold IsPrimeCommand.__call__.
    destruct (IsPrimeCommand._is_prime n) as [b|e]; [|discriminate].
    intros [= _ <-]. cbn; tauto.
  - unfold FinishSessionCommand.__call__. intros [= _ <-]. cbn; tauto.
  - discriminate.
Qed.

(** X11.  A request and its response.  The client sends a command of the
    server's table; the server's round on a stream that starts with that
    message executes the command and sends one message; the client, on a
    stream that starts with this message, receives exactly the response
    the execution returned.  This holds whenever the response can be
    encoded and, if it is a [who], its author neither starts nor ends with
    U+0000. *)
Theorem request_response (c r : BaseCommand) (sd sd' : SessionData)
  (cl cl' w cl2 : Server) (rest rest2 : bytes) :
  In (class_of c) [WhoCommand_cls; IsPrimeCommand_cls; FinishSessionCommand_cls] ->
  match c with
  | MkWho (Some a) => hd 0 a <> 0 /\ last a 0 <> 0
  | _ => True
  end ->
  CommandClient._send_command c cl = (cl', Ok tt) ->
  connected w -> stream w = last (sent cl') [] ++ rest ->
  __call__ c sd = (sd', Ok (Some r)) ->
  in_domain r = true ->
  match r with
  | MkWho (Some a) => hd 0 a <> 0 /\ last a 0 <> 0
  | _ => True
  end ->
  connected cl2 ->
  stream cl2 = last (sent (fst (CommandServer.handle_one sd w))) [] ++ rest2 ->
  exists w' cl2',
    CommandServer.handle_one sd w = (w', Ok sd') /\
    stream w' = rest /\
    sent w' = sent w ++ [last (sent w') []] /\
    CommandClient._receive_message cl2 = (cl2', Ok (Some r)) /\
    stream cl2' = rest2.
Proof.
  intros Hin Hends Hsend Hc Hs Hcall Hd Hrends Hc2 Hs2.
  destruct (_send_command_inv c cl cl' Hsend) as (m & Hm & ->).
  cbn [sent] in Hs. rewrite last_last in Hs.
  destruct (message_of_in_domain r Hd) as [mr Hmr].
  destruct (handle_one_exchange sd sd' w c r m mr rest Hin Hm Hends Hc Hs
              Hcall Hmr) as (w' & Hone & Hs' & Hc' & Hsent').
  rewrite Hone in Hs2. cbn [fst] in Hs2. rewrite Hsent', last_last in Hs2.
  destruct (client_receives r mr rest2 cl2 (response_class c r sd sd' Hcall)
              Hmr Hrends Hc2 Hs2) as (cl2' & Hrecv & Hs2' & _).
  exists w', cl2'. rewrite Hsent', last_last. auto.
Qed.

Lemma request_response_witness :
  exists w' cl2',
    CommandServer.handle_one (SessionData_new [65; 66])
      (mkServer [] [[x04; x77; x68; x6f] ++ repeat x00 128] [])
      = (w', Ok (SessionData_new [65; 66])) /\
    stream w' = [] /\
    sent w' = [] ++ [last (sent w') []] /\
    CommandClient._receive_message
      (mkServer [] [[x04; x77; x68; x6f; x41; x42] ++ repeat x00 126] [])
      = (cl2', Ok (Some (MkWho (Some [65; 66])))) /\
    stream cl2' = [].
Proof.
  apply (request_response (MkWho None) (MkWho (Some [65; 66]))
           (SessionData_new [65; 66]) (SessionData_new [65; 66])
           (mkServer [] [] [])
           (mkServer [] [] [[x04; x77; x68; x6f] ++ repeat x00 128])
           (mkServer [] [[x04; x77; x68; x6f] ++ repeat x00 128] [])
           (mkServer [] [[x04; x77; x68; x6f; x41; x42] ++ repeat x00 126] [])
           [] []);
    try reflexivity; try exact I;
    try (repeat constructor; discriminate).
Defined.

(** ** A whole session of the server *)

Lemma handle_rounds_isprimes (ns : list Z) :
  Forall (fun n => n < 2 ^ 52) ns ->
  forall (reqs : list bytes) (tail : bytes) (k : nat) (sd : SessionData)
         (w : Server),
    Forall2 (fun n m => message_of (MkIsPrime n) = Some m) ns reqs ->
    session_running sd = true ->
    connected w -> stream w = concat reqs ++ tail ->
    exists w' bs replies,
      CommandServer.handle_rounds (length ns + k) sd w
        = CommandServer.handle_rounds k
            (fold_left (fun sd n => fst (__call__ (MkIsPrime n) sd)) ns sd) w' /\
      Forall2 (fun n b => b = true <-> Z.prime n) ns bs /\
      Forall2 (fun b m => message_of (MkBool b) = Some m) bs replies /\
      sent w' = sent w ++ replies /\
      stream w' = tail /\ connected w'.
Proof.
  induction 1 as [|n ns Hn Hns IH];
    intros reqs tail k sd w Hreqs Hrun Hc Hs.
  - inversion Hreqs; subst. exists w, [], [].
    cbn [length Nat.add fold_left]. rewrite app_nil_r.
    repeat split; auto; constructor.
  - inversion Hreqs as [|n' m ns' reqs' Hm Hreqs' E1 E2]; subst.
    destruct (IsPrimeCommand_call_fields n sd Hn) as (b & Hb & Hcall).
    destruct (message_of_in_domain (MkBool b) eq_refl) as [mr Hmr].
    cbn [concat] in Hs. rewrite <- app_assoc in Hs.
    assert (Hin : In (class_of (MkIsPrime n))
                    [WhoCommand_cls; IsPrimeCommand_cls;
                     FinishSessionCommand_cls]) by (cbn; tauto).
    destruct (handle_one_exchange sd _ w (MkIsPrime n) (MkBool b) m mr
                (concat reqs' ++ tail) Hin Hm I Hc Hs Hcall Hmr)
      as (w1 & Hone & Hs1 & Hc1 & Hsent1).
    cbn [length Nat.add CommandServer.handle_rounds fold_left].
    rewrite Hrun, Hone, Hcall. cbn [fst].
    match type of Hcall with _ = (?s, _) => set (sd1 := s) in * end.
    assert (Hrun1 : session_running sd1 = true) by exact Hrun.
    destruct (IH reqs' tail k sd1 w1 Hreqs' Hrun1 Hc1 Hs1) as
      (w' & bs & replies & Hrounds & Hbs & Hrep & Hsent & Hs' & Hc').
    exists w', (b :: bs), (mr :: replies).
    split; [exact Hrounds|]. split; [now constructor|].
    split; [now constructor|]. split; [|auto].
    rewrite Hsent, Hsent1, <- app_assoc. reflexivity.
Qed.

(** X12.  A whole session.  The stream starts with the messages of
    [isprime] for fewer than [2^31] numbers of the range, followed by the
    message of [finishsession]; the chunks are arbitrary.  Then
    [handle_connection] ends normally after one round per message: it has
    sent one [bool] message per number, telling whether the number is
    prime, then the [stats] message of the totals, and it has read nothing
    after [finishsession]. *)
Theorem handle_connection_session_of (AUTHOR : str) (ns : list Z)
  (reqs : list bytes) (fin rest : bytes) (chunks : list bytes)
  (rounds : nat) :
  Forall (fun n =>
            IsPrimeCommand.MIN_ALLOWED <= n <= IsPrimeCommand.MAX_ALLOWED) ns ->
  Z.of_nat (length ns) < 2 ^ 31 ->
  Forall2 (fun n m => message_of (MkIsPrime n) = Some m) ns reqs ->
  message_of MkFinishSession = Some fin ->
  Forall (fun chunk : bytes => chunk <> []) chunks ->
  concat chunks = concat reqs ++ fin ++ rest ->
  (length ns < rounds)%nat ->
  exists w' bs replies stats_message,
    let cnt := Z.of_nat (length ns) in
    let primes := Z.of_nat (length (filter id bs)) in
    let least := fold_right Z.min IsPrimeCommand.MAX_ALLOWED ns in
    let greatest := fold_right Z.max IsPrimeCommand.MIN_ALLOWED ns in
    CommandServer.handle_connection AUTHOR rounds chunks []
      = (w', Some (Ok (mkSessionData AUTHOR false cnt primes least greatest))) /\
    Forall2 (fun n b => b = true <-> Z.prime n) ns bs /\
    Forall2 (fun b m => message_of (MkBool b) = Some m) bs replies /\
    message_of (MkStats cnt primes least greatest) = Some stats_message /\
    sent w' = replies ++ [stats_message] /\
    stream w' = rest.
Proof.
  intros Hns Hlen Hreqs Hfin Hchunks Hcat Hrounds.
  assert (H52 : Forall (fun n => n < 2 ^ 52) ns).
  { eapply Forall_impl; [|exact Hns]. cbv beta.
    unfold IsPrimeCommand.MAX_ALLOWED. intros n Hn. lia. }
  unfold CommandServer.handle_connection.
  replace rounds with (length ns + S (rounds - S (length ns)))%nat by lia.
  destruct (handle_rounds_isprimes ns H52 reqs (fin ++ rest)
              (S (rounds - S (length ns))) (SessionData_new AUTHOR)
              (mkServer [] chunks []) Hreqs eq_refl Hchunks Hcat)
    as (w1 & bs & replies & -> & Hbs & Hrep & Hsent1 & Hs1 & Hc1).
  destruct (isprime_session_from ns H52) as (bs' & Hbs' & Hfold).
  assert (bs' = bs) as ->.
  { clear - Hbs Hbs'. revert bs' Hbs'.
    induction Hbs as [|n b ns bs Hb Hbs IH]; intros bs' Hbs';
      inversion Hbs' as [|n' b' ns' bs'' Hb' Hbs'' E1 E2]; subst;
      [reflexivity|].
    f_equal; [|now apply IH].
    destruct b, b'; try reflexivity; intuition congruence. }
  rewrite Hfold.
  cbn [SessionData_new author session_running numbers_cnt primes_cnt
       min_value max_value]. rewrite !Z.add_0_l.
  set (cnt := Z.of_nat (length ns)).
  set (primes := Z.of_nat (length (filter id bs))).
  set (least := fold_right Z.min IsPrimeCommand.MAX_ALLOWED ns).
  set (greatest := fold_right Z.max IsPrimeCommand.MIN_ALLOWED ns).
  assert (Hd : in_domain (MkStats cnt primes least greatest) = true).
  { pose proof (length_filter_le id bs) as Hf.
    pose proof (Forall2_length Hbs) as Hl.
    pose proof (fold_min_bounds IsPrimeCommand.MIN_ALLOWED
                  IsPrimeCommand.MAX_ALLOWED ns ltac:(vm_compute; discriminate)
                  Hns) as [Hmin Hmax].
    unfold IsPrimeCommand.MIN_ALLOWED, IsPrimeCommand.MAX_ALLOWED in *.
    cbn [in_domain]. rewrite !andb_true_iff, !int32_ok_spec.
    subst cnt primes least greatest. lia. }
  destruct (message_of_in_domain _ Hd) as [ms Hms].
  assert (Hin : In (class_of MkFinishSession)
                  [WhoCommand_cls; IsPrimeCommand_cls;
                   FinishSessionCommand_cls]) by (cbn; tauto).
  destruct (handle_one_exchange
              (mkSessionData AUTHOR true cnt primes least greatest)
              (mkSessionData AUTHOR false cnt primes least greatest)
              w1 MkFinishSession (MkStats cnt primes least greatest)
              fin ms rest Hin Hfin I Hc1 Hs1 eq_refl Hms)
    as (w2 & Hone & Hs2 & Hc2 & Hsent2).
  exists w2, bs, replies, ms. cbv zeta.
  cbn [CommandServer.handle_rounds session_running]. rewrite Hone.
  destruct (rounds - S (length ns))%nat;
    cbn [CommandServer.handle_rounds session_running];
    (split; [reflexivity|]); repeat split; auto;
    rewrite Hsent2, Hsent1; reflexivity.
Qed.

Lemma handle_connection_session_of_witness :
  exists w' bs replies stats_message,
    let cnt := Z.of_nat (length [7; 8]) in
    let primes := Z.of_nat (length (filter id bs)) in
    let least := fold_right Z.min IsPrimeCommand.MAX_ALLOWED [7; 8] in
    let greatest := fold_right Z.max IsPrimeCommand.MIN_ALLOWED [7; 8] in
    CommandServer.handle_connection [65] 3
      [[x08; x69; x73; x70; x72; x69; x6d; x65; x07; x00];
       [x00; x00; x08; x69; x73; x70; x72; x69; x6d; x65; x08; x00; x00; x00;
        x0e; x66; x69; x6e; x69; x73; x68; x73; x65; x73; x73; x69; x6f; x6e;
        x01]] []
      = (w', Some (Ok (mkSessionData [65] false cnt primes least greatest))) /\
    Forall2 (fun n b => b = true <-> Z.prime n) [7; 8] bs /\
    Forall2 (fun b m => message_of (MkBool b) = Some m) bs replies /\
    message_of (MkStats cnt primes least greatest) = Some stats_message /\
    sent w' = replies ++ [stats_message] /\
    stream w' = [x01].
Proof.
  apply (handle_connection_session_of [65] [7; 8]
           [[x08; x69; x73; x70; x72; x69; x6d; x65; x07; x00; x00; x00];
            [x08; x69; x73; x70; x72; x69; x6d; x65; x08; x00; x00; x00]]
           [x0e; x66; x69; x6e; x69; x73; x68; x73; x65; x73; x73; x69; x6f; x6e]
           [x01]).
  - unfold IsPrimeCommand.MIN_ALLOWED, IsPrimeCommand.MAX_ALLOWED.
    repeat constructor; lia.
  - cbn. lia.
  - repeat constructor.
  - reflexivity.
  - repeat constructor; discriminate.
  - reflexivity.
  - cbn. lia.
Defined.

(** ** The client *)

Lemma client_receive_empty (w : Server) (rest : bytes) :
  connected w -> stream w = x01 :: rest ->
  exists w',
    CommandClient._receive_message w = (w', Ok None) /\
    stream w' = rest /\ connected w' /\ sent w' = sent w.
Proof.
  intros Hc. exact (receive_empty CommandClient.commands_decode_table w Hc rest).
Qed.

Lemma CommandClass_eqb_eq (a b : CommandClass) :
  CommandClass_eqb a b = true <-> a = b.
Proof. destruct a, b; cbn; split; congruence. Qed.

(** [_receive_command] on a stream that starts with the message of a
    response. *)
Lemma _receive_command_message (r : BaseCommand) (mr rest : bytes)
  (cl : Client) (command_type : CommandClass) :
  In (class_of r) [WhoCommand_cls; BoolCommand_cls; StatsCommand_cls] ->
  message_of r = Some mr ->
  match r with
  | MkWho (Some a) => hd 0 a <> 0 /\ last a 0 <> 0
  | _ => True
  end ->
  connected (sock cl) -> stream (sock cl) = mr ++ rest ->
  exists s',
    CommandClient._receive_command command_type cl
      = (mkClient s' (printed cl) (written cl),
         if CommandClass_eqb (class_of r) command_type
         then inl r else inr TypeError) /\
    stream s' = rest /\ connected s' /\ sent s' = sent (sock cl).
Proof.
  intros Hin Hm Hends Hc Hs.
  destruct (client_receives r mr rest (sock cl) Hin Hm Hends Hc Hs)
    as (s' & Hr & H').
  exists s'. split; [|exact H'].
  unfold CommandClient._receive_command, abind, on_sock. rewrite Hr.
  cbn [isinstance]. destruct (CommandClass_eqb (class_of r) command_type);
    reflexivity.
Qed.

(** X13.  [_receive_command] accepts a response only if it is of the
    expected class: on a stream that starts with the message of a [who],
    [bool] or [stats] command it consumes the message and returns the
    command when its class is the expected one, and raises [TypeError]
    otherwise; an empty message raises [TypeError] too.  It prints and
    writes nothing. *)
Theorem _receive_command_checks (command_type : CommandClass) (cl : Client)
  (rest : bytes) :
  connected (sock cl) ->
  (stream (sock cl) = x01 :: rest ->
   exists s',
     CommandClient._receive_command command_type cl
       = (mkClient s' (printed cl) (written cl), inr TypeError) /\
     stream s' = rest) /\
  (forall r mr,
     In (class_of r) [WhoCommand_cls; BoolCommand_cls; StatsCommand_cls] ->
     message_of r = Some mr ->
     match r with
     | MkWho (Some a) => hd 0 a <> 0 /\ last a 0 <> 0
     | _ => True
     end ->
     stream (sock cl) = mr ++ rest ->
     exists s',
       CommandClient._receive_command command_type cl
         = (mkClient s' (printed cl) (written cl),
            if CommandClass_eqb (class_of r) command_type
            then inl r else inr TypeError) /\
       stream s' = rest).
Proof.
  intros Hc. split.
  - intros Hs.
    destruct (client_receive_empty (sock cl) rest Hc Hs) as (s' & Hr & Hs' & _).
    exists s'. split; [|exact Hs'].
    unfold CommandClient._receive_command, abind, on_sock. now rewrite Hr.
  - intros r mr Hin Hm Hends Hs.
    destruct (_receive_command_message r mr rest cl command_type Hin Hm Hends
                Hc Hs) as (s' & Hr & Hs' & _).
    now exists s'.
Qed.

Lemma _receive_command_checks_witness :
  exists s',
    CommandClient._receive_command BoolCommand_cls
      (mkClient (mkServer [] [[x06; x73; x74; x61; x74; x73] ++ repeat x00 16]
                   []) [] [])
      = (mkClient s' [] [], inr TypeError) /\
    stream s' = [].
Proof.
  destruct (_receive_command_checks BoolCommand_cls
              (mkClient (mkServer []
                           [[x06; x73; x74; x61; x74; x73] ++ repeat x00 16]
                           []) [] []) [])
    as [_ H]; [repeat constructor; discriminate|].
  apply (H (MkStats 0 0 0 0) ([x06; x73; x74; x61; x74; x73] ++ repeat x00 16));
    [cbn; tauto | reflexivity | exact I | reflexivity].
Defined.

Lemma IsPrimeCommand_init_domain (n : Z) :
  IsPrimeCommand.__init__ n
  = if in_domain (MkIsPrime n) then Ok (MkIsPrime n) else Error OverflowError.
Proof.
  unfold IsPrimeCommand.__init__. cbn [in_domain].
  destruct ((IsPrimeCommand.MIN_ALLOWED <=? n) &&
            (n <=? IsPrimeCommand.MAX_ALLOWED)); reflexivity.
Qed.

(** A number [isprime] does not accept is reported and nothing is sent. *)
Lemma _filter_primes_step_too_big (n : Z) (cl : Client) :
  in_domain (MkIsPrime n) = false ->
  CommandClient._filter_primes_step n cl
  = (mkClient (sock cl)
       (printed cl ++ [str_of_int n ++ str_of_string " is too big"%string])
       (written cl), inl tt).
Proof.
  intros Hd. unfold CommandClient._filter_primes_step.
  rewrite IsPrimeCommand_init_domain, Hd. reflexivity.
Qed.

(** A number [isprime] accepts is sent; the [bool] response decides
    whether it is written. *)
Lemma _filter_primes_step_bool (n : Z) (b : bool) (reply rest : bytes)
  (cl : Client) :
  in_domain (MkIsPrime n) = true ->
  message_of (MkBool b) = Some reply ->
  connected (sock cl) -> stream (sock cl) = reply ++ rest ->
  exists s' m,
    message_of (MkIsPrime n) = Some m /\
    CommandClient._filter_primes_step n cl
    = (mkClient s'
         (printed cl ++
          [str_of_int n ++
           str_of_string (if b then " is prime" else " is not prime")%string])
         (written cl ++ if b then [str_of_int n ++ [10]] else []),
       inl tt) /\
    sent s' = sent (sock cl) ++ [m] /\ stream s' = rest /\ connected s'.
Proof.
  intros Hd Hreply Hc Hs.
  destruct (message_of_in_domain (MkIsPrime n) Hd) as [m Hm].
  unfold CommandClient._filter_primes_step.
  rewrite IsPrimeCommand_init_domain, Hd. unfold on_sock at 1.
  rewrite (proj1 (message_of_sent (MkIsPrime n) m (sock cl) Hm)).
  set (cl1 := mkClient _ (printed cl) (written cl)).
  assert (Hin : In (class_of (MkBool b))
                  [WhoCommand_cls; BoolCommand_cls; StatsCommand_cls])
    by (cbn; tauto).
  destruct (_receive_command_message (MkBool b) reply rest cl1 BoolCommand_cls
              Hin Hreply I Hc Hs) as (s' & Hr & Hs' & Hc' & Hsent').
  rewrite Hr. cbn [class_of CommandClass_eqb]. exists s', m.
  split; [exact Hm|]. split; [|auto].
  destruct b; unfold abind, print, output_file_write;
    cbn [sock printed written]; rewrite ?app_nil_r; reflexivity.
Qed.

Lemma _filter_primes_run (ns : list Z) (bs : list bool)
  (replies : list bytes) (rest : bytes) (cl : Client) :
  let sendable := filter (fun n => in_domain (MkIsPrime n)) ns in
  length bs = length sendable ->
  Forall2 (fun b m => message_of (MkBool b) = Some m) bs replies ->
  connected (sock cl) ->
  stream (sock cl) = concat replies ++ rest ->
  exists cl' reqs,
    CommandClient._filter_primes ns cl = (cl', inl tt) /\
    Forall2 (fun n m => message_of (MkIsPrime n) = Some m) sendable reqs /\
    sent (sock cl') = sent (sock cl) ++ reqs /\
    (stream (sock cl') = rest /\ connected (sock cl')) /\
    written cl' =
      written cl ++
      map (fun p => str_of_int (fst p) ++ [10])
        (filter snd (combine sendable bs)) /\
    exists lines,
      printed cl' = printed cl ++ lines /\ length lines = length ns.
Proof.
  cbv zeta. revert bs replies cl.
  induction ns as [|n ns IH]; intros bs replies cl Hlen Hrep Hc Hs.
  - destruct bs; [|discriminate]. inversion Hrep; subst.
    exists cl, []. cbn. rewrite !app_nil_r.
    repeat split; auto. exists []. now rewrite app_nil_r.
  - cbn [filter CommandClient._filter_primes] in *. unfold abind.
    destruct (in_domain (MkIsPrime n)) eqn:Hd.
    + destruct bs as [|b bs]; [discriminate|].
      inversion Hrep as [|b' reply bs' replies' Hreply Hrep' E1 E2]; subst.
      cbn [concat] in Hs. rewrite <- app_assoc in Hs.
      destruct (_filter_primes_step_bool n b reply _ cl Hd Hreply Hc Hs)
        as (s' & m & Hm & -> & Hsent & Hs' & Hc').
      match goal with
      | |- context [CommandClient._filter_primes ns ?c] =>
          destruct (IH bs replies' c) as
            (cl' & reqs & -> & Hreqs & Hsent' & [Hstream' Hcon'] & Hw & lines & Hp & Hl);
            [cbn [length] in Hlen; lia | exact Hrep' | exact Hc' | exact Hs' |]
      end.
      cbn [sock printed written] in *.
      exists cl', (m :: reqs). split; [reflexivity|].
      split; [now constructor|].
      split; [rewrite Hsent', Hsent, <- app_assoc; reflexivity|].
      split; [split; assumption|]. split.
      * rewrite Hw, <- app_assoc. cbn [combine filter snd fst].
        destruct b; reflexivity.
      * eexists (_ :: lines). rewrite Hp, <- app_assoc.
        split; [reflexivity|]. cbn [length]. lia.
    + rewrite (_filter_primes_step_too_big n cl Hd).
      match goal with
      | |- context [CommandClient._filter_primes ns ?c] =>
          destruct (IH bs replies c) as
            (cl' & reqs & -> & Hreqs & Hsent' & [Hstream' Hcon'] & Hw & lines & Hp & Hl);
            [exact Hlen | exact Hrep | exact Hc | exact Hs |]
      end.
      cbn [sock printed written] in *.
      exists cl', reqs. do 5 (split; [auto|]).
      eexists (_ :: lines). rewrite Hp, <- app_assoc.
      split; [reflexivity|]. cbn [length]. lia.
Qed.

(** X14.  [_filter_primes] over any sequence of numbers, with a server
    that answers each [isprime] by a [bool]: the client sends one
    [isprime] message for each number of the range, in order, and none for
    the others; it consumes one response per message sent; and it writes
    to the file, in order, the decimal form and a newline of exactly the
    numbers answered by [bool(1)]. *)
Theorem _filter_primes_writes (ns : list Z) (bs : list bool)
  (replies : list bytes) (rest : bytes) (cl : Client) :
  let sendable := filter (fun n => in_domain (MkIsPrime n)) ns in
  length bs = length sendable ->
  Forall2 (fun b m => message_of (MkBool b) = Some m) bs replies ->
  connected (sock cl) ->
  stream (sock cl) = concat replies ++ rest ->
  exists cl' reqs,
    CommandClient._filter_primes ns cl = (cl', inl tt) /\
    Forall2 (fun n m => message_of (MkIsPrime n) = Some m) sendable reqs /\
    sent (sock cl') = sent (sock cl) ++ reqs /\
    stream (sock cl') = rest /\
    written cl' =
      written cl ++
      map (fun p => str_of_int (fst p) ++ [10])
        (filter snd (combine sendable bs)) /\
    exists lines,
      printed cl' = printed cl ++ lines /\ length lines = length ns.
Proof.
  intros sendable Hlen Hrep Hc Hs.
  destruct (_filter_primes_run ns bs replies rest cl Hlen Hrep Hc Hs)
    as (cl' & reqs & Hrun & Hreqs & Hsent & [Hstream _] & Hw & Hp).
  exists cl', reqs. auto 7.
Qed.

Lemma _filter_primes_writes_witness :
  exists cl' reqs,
    CommandClient._filter_primes [7; 2 ^ 31; 8]
      (mkClient (mkServer [] [[x05; x62; x6f; x6f; x6c; x01; x05; x62];
                              [x6f; x6f; x6c; x00]] []) [] [])
      = (cl', inl tt) /\
    Forall2 (fun n m => message_of (MkIsPrime n) = Some m)
      (filter (fun n => in_domain (MkIsPrime n)) [7; 2 ^ 31; 8]) reqs /\
    sent (sock cl') = [] ++ reqs /\
    stream (sock cl') = [] /\
    written cl' =
      [] ++ map (fun p => str_of_int (fst p) ++ [10])
              (filter snd
                 (combine (filter (fun n => in_domain (MkIsPrime n))
                             [7; 2 ^ 31; 8]) [true; false])) /\
    exists lines, printed cl' = [] ++ lines /\ length lines = 3%nat.
Proof.
  apply (_filter_primes_writes [7; 2 ^ 31; 8] [true; false]
           [[x05; x62; x6f; x6f; x6c; x01]; [x05; x62; x6f; x6f; x6c; x00]] []
           (mkClient (mkServer [] [[x05; x62; x6f; x6f; x6c; x01; x05; x62];
                                   [x6f; x6f; x6c; x00]] []) [] []));
    [reflexivity | repeat constructor | repeat constructor; discriminate
    | reflexivity].
Defined.

(** ** Client and server together *)

Lemma message_of_nonempty (c : BaseCommand) (m : bytes) :
  message_of c = Some m -> m <> [].
Proof.
  intros H. destruct (message_of_inv c m H) as (h & nm & p & -> & _).
  discriminate.
Qed.

Lemma Forall2_message_nonempty {A : Type} (f : A -> BaseCommand)
  (l : list A) (ms : list bytes) :
  Forall2 (fun a m => message_of (f a) = Some m) l ms ->
  Forall (fun chunk : bytes => chunk <> []) ms.
Proof.
  induction 1 as [|a m l ms Hm _ IH]; constructor; [|exact IH].
  exact (message_of_nonempty _ _ Hm).
Qed.

Lemma Forall2_message_exists {A : Type} (f : A -> BaseCommand) (l : list A) :
  Forall (fun a => in_domain (f a) = true) l ->
  exists ms, Forall2 (fun a m => message_of (f a) = Some m) l ms.
Proof.
  induction 1 as [|a l Ha _ [ms IH]].
  - exists []. constructor.
  - destruct (message_of_in_domain _ Ha) as [m Hm].
    exists (m :: ms). now constructor.
Qed.

(** The round of [finishsession] and the end of the loop. *)
Lemma handle_rounds_finish (AUTHOR : str) (cnt primes least greatest : Z)
  (fin ms rest : bytes) (k : nat) (w : Server) :
  message_of MkFinishSession = Some fin ->
  message_of (MkStats cnt primes least greatest) = Some ms ->
  connected w -> stream w = fin ++ rest ->
  exists w',
    CommandServer.handle_rounds (S k)
      (mkSessionData AUTHOR true cnt primes least greatest) w
    = (w', Some (Ok (mkSessionData AUTHOR false cnt primes least greatest))) /\
    sent w' = sent w ++ [ms] /\ stream w' = rest.
Proof.
  intros Hfin Hms Hc Hs.
  assert (Hin : In (class_of MkFinishSession)
                  [WhoCommand_cls; IsPrimeCommand_cls;
                   FinishSessionCommand_cls]) by (cbn; tauto).
  destruct (handle_one_exchange
              (mkSessionData AUTHOR true cnt primes least greatest)
              (mkSessionData AUTHOR false cnt primes least greatest)
              w MkFinishSession (MkStats cnt primes least greatest)
              fin ms rest Hin Hfin I Hc Hs eq_refl Hms)
    as (w' & Hone & Hs' & Hc' & Hsent').
  exists w'. cbn [CommandServer.handle_rounds session_running].
  rewrite Hone. destruct k; cbn [CommandServer.handle_rounds session_running];
    auto.
Qed.

Lemma _print_author_run (AUTHOR : str) (mw mra rest : bytes) (cl : Client) :
  message_of (MkWho None) = Some mw ->
  message_of (MkWho (Some AUTHOR)) = Some mra ->
  hd 0 AUTHOR <> 0 -> last AUTHOR 0 <> 0 ->
  connected (sock cl) -> stream (sock cl) = mra ++ rest ->
  exists s',
    CommandClient._print_author cl
    = (mkClient s'
         (printed cl ++ [str_of_string "Author is: "%string ++ AUTHOR])
         (written cl), inl tt) /\
    sent s' = sent (sock cl) ++ [mw] /\ stream s' = rest /\ connected s'.
Proof.
  intros Hmw Hmra Hhd Hlast Hc Hs.
  unfold CommandClient._print_author, abind. unfold on_sock at 1.
  rewrite (proj1 (message_of_sent (MkWho None) mw (sock cl) Hmw)).
  set (cl1 := mkClient _ (printed cl) (written cl)).
  assert (Hin : In (class_of (MkWho (Some AUTHOR)))
                  [WhoCommand_cls; BoolCommand_cls; StatsCommand_cls])
    by (cbn; tauto).
  destruct (_receive_command_message (MkWho (Some AUTHOR)) mra rest cl1
              WhoCommand_cls Hin Hmra (conj Hhd Hlast) Hc Hs)
    as (s' & -> & Hs' & Hc' & Hsent').
  cbn [class_of CommandClass_eqb]. exists s'. split; [reflexivity|].
  repeat split; auto.
Qed.

Lemma _finish_session_run (a b c d : Z) (fin ms rest : bytes) (cl : Client) :
  message_of MkFinishSession = Some fin ->
  message_of (MkStats a b c d) = Some ms ->
  connected (sock cl) -> stream (sock cl) = ms ++ rest ->
  exists s',
    CommandClient._finish_session cl
    = (mkClient s'
         (printed cl ++
          [str_of_string "Stats:"%string;
           print_args
             [str_of_string "numbers_cnt="%string ++ str_of_int a;
              str_of_string "primes_cnt="%string ++ str_of_int b;
              str_of_string "min_value="%string ++ str_of_int c;
              str_of_string "max_value="%string ++ str_of_int d]])
         (written cl), inl tt) /\
    sent s' = sent (sock cl) ++ [fin] /\ stream s' = rest.
Proof.
  intros Hfin Hms Hc Hs.
  unfold CommandClient._finish_session, abind. unfold on_sock at 1.
  rewrite (proj1 (message_of_sent MkFinishSession fin (sock cl) Hfin)).
  set (cl1 := mkClient _ (printed cl) (written cl)).
  assert (Hin : In (class_of (MkStats a b c d))
                  [WhoCommand_cls; BoolCommand_cls; StatsCommand_cls])
    by (cbn; tauto).
  destruct (_receive_command_message (MkStats a b c d) ms rest cl1
              StatsCommand_cls Hin Hms I Hc Hs)
    as (s' & -> & Hs' & Hc' & Hsent').
  cbn [class_of CommandClass_eqb]. exists s'. unfold print.
  cbn [sock printed written]. rewrite <- app_assoc.
  split; [reflexivity|]. auto.
Qed.

Lemma Forall2_prime_unique (ns : list Z) (bs bs' : list bool) :
  Forall2 (fun n b => b = true <-> Z.prime n) ns bs ->
  Forall2 (fun n b => b = true <-> Z.prime n) ns bs' ->
  bs' = bs.
Proof.
  intros Hbs. revert bs'.
  induction Hbs as [|n b ns bs Hb Hbs IH]; intros bs' Hbs';
    inversion Hbs' as [|n' b' ns' bs'' Hb' Hbs'' E1 E2]; subst;
    [reflexivity|].
  f_equal; [|now apply IH].
  destruct b, b'; try reflexivity; intuition congruence.
Qed.

Lemma session_stats_in_domain (ns : list Z) (bs : list bool) :
  Forall (fun n =>
            IsPrimeCommand.MIN_ALLOWED <= n <= IsPrimeCommand.MAX_ALLOWED) ns ->
  Z.of_nat (length ns) < 2 ^ 31 ->
  length ns = length bs ->
  in_domain (MkStats (Z.of_nat (length ns))
               (Z.of_nat (length (filter id bs)))
               (fold_right Z.min IsPrimeCommand.MAX_ALLOWED ns)
               (fold_right Z.max IsPrimeCommand.MIN_ALLOWED ns)) = true.
Proof.
  intros Hns Hlen Hl.
  pose proof (length_filter_le id bs) as Hf.
  pose proof (fold_min_bounds IsPrimeCommand.MIN_ALLOWED
                IsPrimeCommand.MAX_ALLOWED ns ltac:(vm_compute; discriminate)
                Hns) as [Hmin Hmax].
  unfold IsPrimeCommand.MIN_ALLOWED, IsPrimeCommand.MAX_ALLOWED in *.
  cbn [in_domain]. rewrite !andb_true_iff, !int32_ok_spec. lia.
Qed.

Lemma sendable_range (ns : list Z) :
  Forall (fun n =>
            IsPrimeCommand.MIN_ALLOWED <= n <= IsPrimeCommand.MAX_ALLOWED)
    (filter (fun n => in_domain (MkIsPrime n)) ns).
Proof.
  apply Forall_forall. intros n Hn. apply filter_In in Hn.
  destruct Hn as [_ Hn]. cbn [in_domain] in Hn.
  apply andb_true_iff in Hn. lia.
Qed.

(** X15.  The client's prime filter against the server.  The server runs
    [handle_connection] on the messages the client sends, and the client
    runs [_filter_primes_mode] on the messages the server sends, one chunk
    per message.  Provided the author can be encoded and neither starts nor
    ends with U+0000, and fewer than [2^31] of the numbers are in the range
    of [isprime], both end normally: the output file, emptied first, holds
    one line with the decimal of each prime among the numbers of the range,
    in order; the client has printed the author, one line per number, then
    the totals of the session the server ends with. *)
Theorem filter_primes_mode_against_server (AUTHOR : str) (ns : list Z)
  (old_file : list str) (rounds : nat) :
  let sendable := filter (fun n => in_domain (MkIsPrime n)) ns in
  in_domain (MkWho (Some AUTHOR)) = true ->
  hd 0 AUTHOR <> 0 -> last AUTHOR 0 <> 0 ->
  Z.of_nat (length sendable) < 2 ^ 31 ->
  (S (length sendable) < rounds)%nat ->
  exists requests responses bs w' cl' lines,
    let cnt := Z.of_nat (length sendable) in
    let primes := Z.of_nat (length (filter id bs)) in
    let least := fold_right Z.min IsPrimeCommand.MAX_ALLOWED sendable in
    let greatest := fold_right Z.max IsPrimeCommand.MIN_ALLOWED sendable in
    CommandServer.handle_connection AUTHOR rounds requests []
      = (w', Some (Ok (mkSessionData AUTHOR false cnt primes least greatest))) /\
    sent w' = responses /\
    CommandClient._filter_primes_mode ns
      (mkClient (mkServer [] responses []) [] old_file) = (cl', inl tt) /\
    sent (sock cl') = requests /\
    length requests = S (S (length sendable)) /\
    Forall2 (fun n b => b = true <-> Z.prime n) sendable bs /\
    written cl' =
      map (fun p => str_of_int (fst p) ++ [10])
        (filter snd (combine sendable bs)) /\
    printed cl' =
      [str_of_string "Author is: "%string ++ AUTHOR] ++ lines ++
      [str_of_string "Stats:"%string;
       print_args
         [str_of_string "numbers_cnt="%string ++ str_of_int cnt;
          str_of_string "primes_cnt="%string ++ str_of_int primes;
          str_of_string "min_value="%string ++ str_of_int least;
          str_of_string "max_value="%string ++ str_of_int greatest]] /\
    length lines = length ns.
Proof.
  intros sendable Hauthor Hhd Hlast Hlen Hrounds.
  pose proof (sendable_range ns) as Hns. fold sendable in Hns.
  assert (H52 : Forall (fun n => n < 2 ^ 52) sendable).
  { eapply Forall_impl; [|exact Hns]. cbv beta.
    unfold IsPrimeCommand.MAX_ALLOWED. intros n Hn. lia. }
  assert (Hdom : Forall (fun n => in_domain (MkIsPrime n) = true) sendable).
  { apply Forall_forall. intros n Hn. now apply filter_In in Hn. }
  destruct (message_of_in_domain (MkWho None) eq_refl) as [mw Hmw].
  destruct (message_of_in_domain _ Hauthor) as [mra Hmra].
  destruct (message_of_in_domain MkFinishSession eq_refl) as [fin Hfin].
  destruct (Forall2_message_exists MkIsPrime sendable Hdom) as [reqs Hreqs].
  set (requests := [mw] ++ reqs ++ [fin]).
  assert (Hcr : connected (mkServer [] requests [])).
  { unfold connected, requests. cbn [pending].
    apply Forall_app. split; [constructor; [|constructor]|].
    - exact (message_of_nonempty _ _ Hmw).
    - apply Forall_app. split.
      + exact (Forall2_message_nonempty MkIsPrime _ _ Hreqs).
      + constructor; [|constructor]. exact (message_of_nonempty _ _ Hfin). }
  assert (Hsr : stream (mkServer [] requests [])
                = mw ++ concat reqs ++ fin ++ []).
  { unfold stream, requests. cbn [_buffer pending app concat].
    rewrite concat_app. cbn [concat]. rewrite !app_nil_r. reflexivity. }
  (* the server *)
  assert (Hinw : In (class_of (MkWho None))
                   [WhoCommand_cls; IsPrimeCommand_cls;
                    FinishSessionCommand_cls]) by (cbn; tauto).
  destruct (handle_one_exchange (SessionData_new AUTHOR)
              (SessionData_new AUTHOR) (mkServer [] requests [])
              (MkWho None) (MkWho (Some AUTHOR)) mw mra
              (concat reqs ++ fin ++ []) Hinw Hmw I Hcr Hsr eq_refl Hmra)
    as (w1 & Hone & Hs1 & Hc1 & Hsent1).
  destruct (handle_rounds_isprimes sendable H52 reqs (fin ++ [])
              (S (rounds - S (S (length sendable)))) (SessionData_new AUTHOR)
              w1 Hreqs eq_refl Hc1 Hs1)
    as (w2 & bs & replies & Hrounds2 & Hbs & Hrep & Hsent2 & Hs2 & Hc2).
  destruct (isprime_session_from sendable H52) as (bs' & Hbs' & Hfold).
  rewrite (Forall2_prime_unique _ _ _ Hbs Hbs') in Hfold. clear bs' Hbs'.
  rewrite Hfold in Hrounds2.
  cbn [SessionData_new author session_running numbers_cnt primes_cnt
       min_value max_value] in Hrounds2. rewrite !Z.add_0_l in Hrounds2.
  pose proof (session_stats_in_domain sendable bs Hns Hlen
                (Forall2_length Hbs)) as Hd.
  destruct (message_of_in_domain _ Hd) as [ms Hms].
  destruct (handle_rounds_finish AUTHOR _ _ _ _ fin ms []
              (rounds - S (S (length sendable))) w2 Hfin Hms Hc2 Hs2)
    as (w3 & Hrounds3 & Hsent3 & _).
  set (responses := [mra] ++ replies ++ [ms]).
  assert (Hsentw : sent w3 = responses).
  { rewrite Hsent3, Hsent2, Hsent1. reflexivity. }
  (* the client *)
  set (cl0 := mkClient (mkServer [] responses []) [] old_file).
  assert (Hcc : connected (sock cl0)).
  { unfold connected, cl0, responses. cbn [sock pending].
    apply Forall_app. split; [constructor; [|constructor]|].
    - exact (message_of_nonempty _ _ Hmra).
    - apply Forall_app. split.
      + exact (Forall2_message_nonempty MkBool _ _ Hrep).
      + constructor; [|constructor]. exact (message_of_nonempty _ _ Hms). }
  assert (Hsc : stream (sock cl0) = mra ++ concat replies ++ ms ++ []).
  { unfold stream, cl0, responses. cbn [sock _buffer pending app concat].
    rewrite concat_app. cbn [concat]. rewrite !app_nil_r. reflexivity. }
  destruct (_print_author_run AUTHOR mw mra (concat replies ++ ms ++ []) cl0
              Hmw Hmra Hhd Hlast Hcc Hsc)
    as (s1 & Hpa & Hsents1 & Hss1 & Hcs1).
  set (cl1 := mkClient s1 (printed cl0 ++
                           [str_of_string "Author is: "%string ++ AUTHOR]) []).
  destruct (_filter_primes_run ns bs replies (ms ++ []) cl1
              (eq_sym (Forall2_length Hbs)) Hrep Hcs1 Hss1)
    as (cl2 & reqs' & Hfp & Hreqs' & Hsent2' & [Hss2 Hcs2] & Hw2 & lines
        & Hp2 & Hl).
  assert (reqs' = reqs) as ->.
  { clear - Hreqs Hreqs'. fold sendable in Hreqs'. revert reqs' Hreqs'.
    induction Hreqs as [|n m l reqs Hm _ IH]; intros reqs' Hreqs';
      inversion Hreqs' as [|n' m' l' reqs'' Hm' Hr' E1 E2]; subst;
      [reflexivity|].
    f_equal; [congruence|now apply IH]. }
  destruct (_finish_session_run _ _ _ _ fin ms [] cl2 Hfin Hms Hcs2 Hss2)
    as (s3 & Hfs & Hsent3' & _).
  exists requests, responses, bs, w3.
  eexists. exists lines. cbv zeta.
  split.
  { unfold CommandServer.handle_connection.
    replace rounds
      with (S (length sendable + S (rounds - S (S (length sendable)))))%nat
      by lia.
    cbn [CommandServer.handle_rounds SessionData_new session_running].
    rewrite Hone. fold (SessionData_new AUTHOR).
    rewrite Hrounds2. exact Hrounds3. }
  split; [exact Hsentw|].
  split.
  { unfold CommandClient._filter_primes_mode, abind.
    fold cl0. rewrite Hpa. unfold output_file_open at 1.
    cbn [sock printed written]. fold cl1. rewrite Hfp, Hfs. reflexivity. }
  cbn [sock printed written].
  split.
  { rewrite Hsent3', Hsent2'. unfold cl1. cbn [sock]. rewrite Hsents1.
    unfold cl0, requests. cbn [sock sent]. rewrite <- !app_assoc.
    reflexivity. }
  split.
  { unfold requests. rewrite !length_app, <- (Forall2_length Hreqs).
    cbn [length]. lia. }
  split; [exact Hbs|].
  split; [rewrite Hw2; reflexivity|].
  split; [|exact Hl].
  rewrite Hp2. unfold cl1, cl0. cbn [printed app].
  rewrite <- ?app_assoc. reflexivity.
Qed.

Lemma filter_primes_mode_against_server_witness :
  exists requests responses bs w' cl' lines,
    let sendable := filter (fun n => in_domain (MkIsPrime n)) [7; 2 ^ 31; 8] in
    let cnt := Z.of_nat (length sendable) in
    let primes := Z.of_nat (length (filter id bs)) in
    let least := fold_right Z.min IsPrimeCommand.MAX_ALLOWED sendable in
    let greatest := fold_right Z.max IsPrimeCommand.MIN_ALLOWED sendable in
    CommandServer.handle_connection [65; 66] 4 requests []
      = (w', Some (Ok (mkSessionData [65; 66] false cnt primes least
                         greatest))) /\
    sent w' = responses /\
    CommandClient._filter_primes_mode [7; 2 ^ 31; 8]
      (mkClient (mkServer [] responses []) [] [[49; 10]]) = (cl', inl tt) /\
    sent (sock cl') = requests /\
    length requests = S (S (length sendable)) /\
    Forall2 (fun n b => b = true <-> Z.prime n) sendable bs /\
    written cl' =
      map (fun p => str_of_int (fst p) ++ [10])
        (filter snd (combine sendable bs)) /\
    printed cl' =
      [str_of_string "Author is: "%string ++ [65; 66]] ++ lines ++
      [str_of_string "Stats:"%string;
       print_args
         [str_of_string "numbers_cnt="%string ++ str_of_int cnt;
          str_of_string "primes_cnt="%string ++ str_of_int primes;
          str_of_string "min_value="%string ++ str_of_int least;
          str_of_string "max_value="%string ++ str_of_int greatest]] /\
    length lines = length [7; 2 ^ 31; 8].
Proof.
  apply (filter_primes_mode_against_server [65; 66] [7; 2 ^ 31; 8]
           [[49; 10]] 4);
    [reflexivity | discriminate | discriminate | reflexivity | cbn; lia].
Defined.
